(** * Blogs-Corner: content store, broadcast hub and client trackers

    A shallow embedding of

    - [server/storage.ts]  (class [MemStorage]),
    - [shared/schema.ts]   ([insertPostSchema] and its [partial()] form),
    - [server/routes.ts]   ([broadcastUpdate], the event stream, and the
                            handlers of the posts and of the statistics),
    - [client/src/pages/public/blog.tsx] (the like and view trackers,
                            [formatTimeAgo], [getReadingTime]),

    followed by the properties of the specification that concern them.

    Conventions of the embedding.

    - Server code runs in the monad [M]: a function from the [World] (the
      posts map, the uploads directory, the set of SSE connections and an
      event log) to a result and a new world.  A result is a value or a
      thrown exception; a thrown exception keeps the side effects made
      before it, as in JavaScript.
    - The values the code draws from its environment ([new Date()],
      [randomUUID()], the upload file name built from [Date.now()] and
      [Math.random()]) are explicit arguments.
    - A request handler is run to completion before the next one starts.
    - Counters and timestamps are integers ([Z]); the counters of a running
      server stay far below 2^53, where JavaScript numbers stop being exact. *)

From stdpp Require Import base decidable option list strings gmap sorting.
From Stdlib Require Import ZArith Lia.

Local Open Scope string_scope.
Local Open Scope Z_scope.

(* ================================================================== *)
(** * Data model ([shared/schema.ts]) *)

(** [Post = typeof posts.$inferSelect].  A nullable text column is an
    [option string] ([None] is [null]). *)
Record Post := mkPost {
  pid : string;                      (* id *)
  title : string;
  content : string;
  author : string;
  category : option string;
  imageUrl : option string;
  imageFileName : option string;
  views : Z;
  likes : Z;
  published : bool;
  createdAt : Z;                     (* milliseconds since the epoch *)
  updatedAt : Z
}.

(** [InsertPost = z.infer<typeof insertPostSchema>]: the three required
    strings; for the optional keys [None] is an absent (or, where the column
    is nullable, [null]) value. *)
Record InsertPost := mkInsertPost {
  ins_title : string;
  ins_content : string;
  ins_author : string;
  ins_category : option string;
  ins_imageUrl : option string;
  ins_imageFileName : option string;
  ins_published : option bool
}.

(** [Partial<InsertPost>]: every key may be absent (outer [None]); a present
    nullable key holds [null] ([Some None]) or a string.  A key that holds
    [undefined] is not represented: [parse] never yields one. *)
Record PartialInsertPost := mkPartial {
  upd_title : option string;
  upd_content : option string;
  upd_author : option string;
  upd_category : option string;
  upd_imageUrl : option (option string);
  upd_imageFileName : option (option string);
  upd_published : option bool
}.

(** JavaScript truthiness of a [string | null] value, as tested by
    [if (post.imageFileName)]: [null] and the empty string are falsy. *)
Definition truthy (o : option string) : bool :=
  match o with
  | Some s => negb (String.eqb s "")
  | None => false
  end.

(** [a ?? b] on an optional value. *)
Definition nullish {A} (a : option A) (b : A) : A :=
  match a with Some x => x | None => b end.

(* ================================================================== *)
(** * JavaScript [Map<string, Post>]

    An insertion-ordered table: [set] on a present key replaces the value in
    place, on a new key appends; [values()] lists in insertion order. *)
Module JsMap.

Abbreviation t := (list (string * Post)).

Definition empty : t := [].

Fixpoint get (k : string) (m : t) : option Post :=
  match m with
  | [] => None
  | (k', v) :: m' => if String.eqb k' k then Some v else get k m'
  end.

Fixpoint set (k : string) (v : Post) (m : t) : t :=
  match m with
  | [] => [(k, v)]
  | (k', v') :: m' =>
      if String.eqb k' k then (k, v) :: m' else (k', v') :: set k v m'
  end.

(** [delete] returns whether the key was present. *)
Definition has (k : string) (m : t) : bool :=
  match get k m with Some _ => true | None => false end.

Definition delete (k : string) (m : t) : t :=
  filter (fun kv => negb (String.eqb (fst kv) k) = true) m.

Definition values (m : t) : list Post := map snd m.

End JsMap.

(* ================================================================== *)
(** * World, events, and the monad of server code *)

(** What an SSE message carries: [data] is a post, [{ id }] for a deletion,
    or nothing at all in the greeting. *)
Inductive Payload :=
| PPost (p : Post)
| PId (id : string)
| PNone.

(** The text [`data: ${JSON.stringify({ type, data })}\n\n`], kept as the
    pair it is the image of. *)
Record Message := mkMessage { mtype : string; mdata : Payload }.

Inductive Event :=
| EvUnlink (name : string) (ok : bool)      (* fs.promises.unlink *)
| EvWriteFile (name : string) (ok : bool)   (* fs.promises.writeFile *)
| EvConsoleLog (text : string)
| EvStringify (m : Message)                 (* one call of JSON.stringify *)
| EvResWrite (conn : nat) (m : Message) (ok : bool).  (* res.write *)

Inductive Error :=
| FsError (name : string)                   (* rejected file operation *)
| ZodError                                  (* schema.parse threw *)
| WriteError (conn : nat).                  (* res.write threw *)

Record World := mkWorld {
  posts : JsMap.t;                 (* MemStorage.posts *)
  files : gset string;             (* files present under uploads/ *)
  faulty : gset string;            (* names whose file operations are rejected *)
  sseConnections : list nat;       (* Set<express.Response>, insertion order *)
  dead : gset nat;                 (* connections whose write throws *)
  log : list Event                 (* observable effects, oldest first *)
}.

Definition set_posts (f : JsMap.t → JsMap.t) (w : World) : World :=
  mkWorld (f (posts w)) (files w) (faulty w) (sseConnections w) (dead w) (log w).
Definition set_files (f : gset string → gset string) (w : World) : World :=
  mkWorld (posts w) (f (files w)) (faulty w) (sseConnections w) (dead w) (log w).
Definition set_conns (f : list nat → list nat) (w : World) : World :=
  mkWorld (posts w) (files w) (faulty w) (f (sseConnections w)) (dead w) (log w).
Definition emit (e : Event) (w : World) : World :=
  mkWorld (posts w) (files w) (faulty w) (sseConnections w) (dead w) (log w ++ [e]).

Inductive Res (A : Type) :=
| Ok (a : A)
| Throw (e : Error).
Arguments Ok {A} a.
Arguments Throw {A} e.

Definition M (A : Type) : Type := World → Res A * World.

Definition ret {A} (a : A) : M A := fun w => (Ok a, w).
Definition throw {A} (e : Error) : M A := fun w => (Throw e, w).
Definition bind {A B} (m : M A) (k : A → M B) : M B :=
  fun w => match m w with
           | (Ok a, w') => k a w'
           | (Throw e, w') => (Throw e, w')
           end.
(** [try { m } catch (error) { h error }] *)
Definition try_catch {A} (m : M A) (h : Error → M A) : M A :=
  fun w => match m w with
           | (Ok a, w') => (Ok a, w')
           | (Throw e, w') => h e w'
           end.
Definition gets {A} (f : World → A) : M A := fun w => (Ok (f w), w).
Definition modify (f : World → World) : M unit := fun w => (Ok tt, f w).

Declare Scope M_scope.
Notation "'let*' x ':=' m 'in' k" := (bind m (fun x => k))
  (at level 10, x name, m at level 100, k at level 200) : M_scope.
Notation "m >> k" := (bind m (fun _ => k))
  (at level 100, k at level 200, right associativity) : M_scope.
Delimit Scope M_scope with M.
Bind Scope M_scope with M.
Local Open Scope M_scope.

(* ================================================================== *)
(** * [MemStorage] ([server/storage.ts]) *)

(** The comparator of [getPosts]:
    [new Date(b.createdAt).getTime() - new Date(a.createdAt).getTime()]. *)
Definition byCreatedDesc (a b : Post) : Z := createdAt b - createdAt a.

(** [Array.prototype.sort(cmp)]: a stable sort; [a] is placed before [b]
    when [cmp a b <= 0] and [a] came first. *)
Fixpoint js_insert {A} (cmp : A → A → Z) (x : A) (l : list A) : list A :=
  match l with
  | [] => [x]
  | y :: l' => if cmp x y <=? 0 then x :: y :: l' else y :: js_insert cmp x l'
  end.

Fixpoint js_sort {A} (cmp : A → A → Z) (l : list A) : list A :=
  match l with
  | [] => []
  | x :: l' => js_insert cmp x (js_sort cmp l')
  end.

Definition getPosts : M (list Post) :=
  let* m := gets posts in
  ret (js_sort byCreatedDesc (JsMap.values m)).

Definition getPost (id : string) : M (option Post) :=
  let* m := gets posts in ret (JsMap.get id m).

(** [createPost]; [id] is the value of [randomUUID()], [now] of
    [new Date()]. *)
Definition createPost (id : string) (now : Z) (insertPost : InsertPost)
  : M Post :=
  let post :=
    {| pid := id;
       title := ins_title insertPost;
       content := ins_content insertPost;
       author := ins_author insertPost;
       category := ins_category insertPost;
       imageUrl := ins_imageUrl insertPost;          (* ?? null *)
       imageFileName := ins_imageFileName insertPost; (* ?? null *)
       views := 0;
       likes := 0;
       published := nullish (ins_published insertPost) true;
       createdAt := now;
       updatedAt := now |} in
  modify (set_posts (JsMap.set id post)) >>
  ret post.

(** [{ ...post, ...updateData, updatedAt: new Date() }] *)
Definition merge (post : Post) (updateData : PartialInsertPost) (now : Z)
  : Post :=
  {| pid := pid post;
     title := nullish (upd_title updateData) (title post);
     content := nullish (upd_content updateData) (content post);
     author := nullish (upd_author updateData) (author post);
     category :=
       match upd_category updateData with
       | Some c => Some c
       | None => category post
       end;
     imageUrl := nullish (upd_imageUrl updateData) (imageUrl post);
     imageFileName :=
       nullish (upd_imageFileName updateData) (imageFileName post);
     views := views post;
     likes := likes post;
     published := nullish (upd_published updateData) (published post);
     createdAt := createdAt post;
     updatedAt := now |}.

Definition updatePost (id : string) (now : Z) (updateData : PartialInsertPost)
  : M (option Post) :=
  let* m := gets posts in
  match JsMap.get id m with
  | None => ret None
  | Some post =>
      let updatedPost := merge post updateData now in
      modify (set_posts (JsMap.set id updatedPost)) >>
      ret (Some updatedPost)
  end.

(** [fs.promises.unlink]: rejected when the file is absent or the name is
    one the file system refuses. *)
Definition can_unlink (name : string) (w : World) : bool :=
  bool_decide (name ∈ files w) && negb (bool_decide (name ∈ faulty w)).

Definition unlink (name : string) : M unit :=
  fun w =>
    if can_unlink name w
    then (Ok tt, emit (EvUnlink name true) (set_files (fun fs => fs ∖ {[name]}) w))
    else (Throw (FsError name), emit (EvUnlink name false) w).

(** [fs.promises.writeFile] *)
Definition writeFile (name : string) : M unit :=
  fun w =>
    if bool_decide (name ∈ faulty w)
    then (Throw (FsError name), emit (EvWriteFile name false) w)
    else (Ok tt, emit (EvWriteFile name true) (set_files (fun fs => fs ∪ {[name]}) w)).

Definition saveImage (filename : string) : M string :=
  writeFile filename >>
  ret (String.append "/uploads/" filename).

Definition deleteImage (filename : string) : M unit :=
  try_catch (unlink filename)
    (fun _ => modify (emit (EvConsoleLog (String.append "Could not delete image: " filename)))).

(** [if (o) { k(o) }] for a [string | null] value [o]. *)
Definition when_truthy (o : option string) (k : string → M unit) : M unit :=
  match o with
  | Some s => if truthy (Some s) then k s else ret tt
  | None => ret tt
  end.

Definition deletePost (id : string) : M bool :=
  let* m := gets posts in
  match JsMap.get id m with
  | None => ret false
  | Some post =>
      (* if (post.imageFileName) await this.deleteImage(post.imageFileName) *)
      when_truthy (imageFileName post) deleteImage >>
      let* present := gets (fun w => JsMap.has id (posts w)) in
      modify (set_posts (JsMap.delete id)) >>
      ret present
  end.

Definition incrementViews (id : string) (now : Z) : M unit :=
  let* m := gets posts in
  match JsMap.get id m with
  | None => ret tt
  | Some post =>
      let post' :=
        {| pid := pid post; title := title post; content := content post;
           author := author post; category := category post;
           imageUrl := imageUrl post; imageFileName := imageFileName post;
           views := views post + 1; likes := likes post;
           published := published post; createdAt := createdAt post;
           updatedAt := now |} in
      modify (set_posts (JsMap.set id post'))
  end.

Definition toggleLike (id : string) (now : Z) : M (option Post) :=
  let* m := gets posts in
  match JsMap.get id m with
  | None => ret None
  | Some post =>
      let post' :=
        {| pid := pid post; title := title post; content := content post;
           author := author post; category := category post;
           imageUrl := imageUrl post; imageFileName := imageFileName post;
           views := views post; likes := likes post + 1;
           published := published post; createdAt := createdAt post;
           updatedAt := now |} in
      modify (set_posts (JsMap.set id post')) >>
      ret (Some post')
  end.

(* ================================================================== *)
(** * Request bodies and [insertPostSchema] ([shared/schema.ts]) *)

(** A value found under a key of [req.body]. *)
Inductive jsval :=
| VStr (s : string)
| VBool (b : bool)
| VNum (n : Z)
| VNull
| VOther.                      (* an array or a nested object *)

(** The zod field parsers; the argument is the value under the key
    ([None]: key absent), the result [None] is a validation issue. *)
Definition z_string (v : option jsval) : option string :=
  match v with Some (VStr s) => Some s | _ => None end.

(** [z.string().min(1, ...)] *)
Definition z_string_min1 (v : option jsval) : option string :=
  match v with
  | Some (VStr s) => if String.eqb s "" then None else Some s
  | _ => None
  end.

(** [f.optional()] *)
Definition z_optional {A} (f : option jsval → option A) (v : option jsval)
  : option (option A) :=
  match v with
  | None => Some None
  | Some _ => Some <$> f v
  end.

(** [z.string().nullable()] *)
Definition z_string_nullable (v : option jsval) : option (option string) :=
  match v with
  | Some VNull => Some None
  | Some (VStr s) => Some (Some s)
  | _ => None
  end.

Definition z_boolean (v : option jsval) : option bool :=
  match v with Some (VBool b) => Some b | _ => None end.

(** [insertPostSchema.parse]: [title] and [content] come from the table
    ([text(...).notNull()], a plain [z.string()]), [author] and [category]
    from the [extend]; keys that are not in the schema are dropped. *)
Definition insertPostSchema (data : gmap string jsval) : option InsertPost :=
  t ← z_string (data !! "title");
  c ← z_string (data !! "content");
  a ← z_string_min1 (data !! "author");
  cat ← z_optional z_string (data !! "category");
  url ← z_optional z_string_nullable (data !! "imageUrl");
  fname ← z_optional z_string_nullable (data !! "imageFileName");
  pub ← z_optional z_boolean (data !! "published");
  Some {| ins_title := t; ins_content := c; ins_author := a;
          ins_category := cat;
          ins_imageUrl := mjoin url;
          ins_imageFileName := mjoin fname;
          ins_published := pub |}.

(** [insertPostSchema.partial().parse] *)
Definition insertPostSchema_partial (data : gmap string jsval)
  : option PartialInsertPost :=
  t ← z_optional z_string (data !! "title");
  c ← z_optional z_string (data !! "content");
  a ← z_optional z_string_min1 (data !! "author");
  cat ← z_optional z_string (data !! "category");
  url ← z_optional z_string_nullable (data !! "imageUrl");
  fname ← z_optional z_string_nullable (data !! "imageFileName");
  pub ← z_optional z_boolean (data !! "published");
  Some {| upd_title := t; upd_content := c; upd_author := a;
          upd_category := cat; upd_imageUrl := url;
          upd_imageFileName := fname; upd_published := pub |}.

(** [schema.parse(data)] inside a handler: a [ZodError] is thrown on an
    issue. *)
Definition parse {A} (schema : gmap string jsval → option A)
    (data : gmap string jsval) : M A :=
  match schema data with
  | Some v => ret v
  | None => throw ZodError
  end.

(* ================================================================== *)
(** * The broadcast hub ([server/routes.ts]) *)

(** [res.write(message)] *)
Definition res_write (res : nat) (message : Message) : M unit :=
  fun w =>
    if bool_decide (res ∈ dead w)
    then (Throw (WriteError res), emit (EvResWrite res message false) w)
    else (Ok tt, emit (EvResWrite res message true) w).

(** [sseConnections.add(res)] and [sseConnections.delete(res)] *)
Definition set_add (res : nat) (s : list nat) : list nat :=
  if bool_decide (res ∈ s) then s else s ++ [res].
Definition set_delete (res : nat) (s : list nat) : list nat :=
  filter (fun c => c ≠ res) s.

(** [sseConnections.forEach(f)]: the members are visited in insertion order;
    a member deleted before its turn is skipped. *)
Fixpoint forEach (members : list nat) (f : nat → M unit) : M unit :=
  match members with
  | [] => ret tt
  | res :: rest =>
      let* live := gets sseConnections in
      (if bool_decide (res ∈ live) then f res else ret tt) >>
      forEach rest f
  end.

Definition broadcastUpdate (type : string) (data : Payload) : M unit :=
  let message := mkMessage type data in
  modify (emit (EvStringify message)) >>
  let* members := gets sseConnections in
  forEach members (fun res =>
    try_catch (res_write res message)
              (fun _ => modify (set_conns (set_delete res)))).

(* ================================================================== *)
(** * The request handlers ([server/routes.ts]) *)

(** [req.file]: [storedName] is the name the handler builds for it,
    [`${Date.now()}-${Math.random().toString(36).substring(7)}${ext}`]. *)
Record Upload := mkUpload { originalname : string; storedName : string }.

Record Request := mkRequest {
  params_id : string;                (* req.params.id *)
  body : gmap string jsval;          (* req.body *)
  file : option Upload               (* req.file *)
}.

Inductive Response :=
| RPost (status : Z) (p : Post)             (* res.status(s).json(post) *)
| RMessage (status : Z) (message : string). (* res.status(s).json({ message }) *)

(** [if (d.published !== undefined)
       d.published = d.published === 'true' || d.published === true] *)
Definition convert_published (d : gmap string jsval) : gmap string jsval :=
  match d !! "published" with
  | None => d
  | Some v =>
      <["published" :=
          VBool (match v with
                 | VStr s => String.eqb s "true"
                 | VBool b => b
                 | _ => false
                 end)]> d
  end.

Definition js_null_or (o : option string) : jsval :=
  match o with Some s => VStr s | None => VNull end.

(** [app.post('/api/posts', ...)]; [id] and [now] are the values drawn by
    [createPost]. *)
Definition post_posts (req : Request) (id : string) (now : Z) : M Response :=
  try_catch
    (let* image :=
       match file req with
       | Some f =>
           let imageFileName := storedName f in
           let* imageUrl := saveImage imageFileName in
           ret (Some imageUrl, Some imageFileName)
       | None => ret (None, None)
       end in
     let postData :=
       <["imageFileName" := js_null_or (snd image)]>
         (<["imageUrl" := js_null_or (fst image)]> (body req)) in
     let postData := convert_published postData in
     let* validatedData := parse insertPostSchema postData in
     let* post := createPost id now validatedData in
     broadcastUpdate "post_created" (PPost post) >>
     ret (RPost 201 post))
    (fun error =>
       match error with
       | ZodError => ret (RMessage 400 "Invalid post data")
       | _ => ret (RMessage 500 "Failed to create post")
       end).

(** [app.put('/api/posts/:id', ...)]; [now] is the value drawn by
    [updatePost]. *)
Definition put_posts (req : Request) (now : Z) : M Response :=
  try_catch
    (let* existingPost := getPost (params_id req) in
     match existingPost with
     | None => ret (RMessage 404 "Post not found")
     | Some existingPost =>
         let updateData := convert_published (body req) in
         let* updateData :=
           match file req with
           | Some f =>
               when_truthy (imageFileName existingPost) deleteImage >>
               let imageFileName := storedName f in
               let* imageUrl := saveImage imageFileName in
               ret (<["imageFileName" := VStr imageFileName]>
                      (<["imageUrl" := VStr imageUrl]> updateData))
           | None => ret updateData
           end in
         let* validatedData := parse insertPostSchema_partial updateData in
         let* post := updatePost (params_id req) now validatedData in
         match post with
         | None => ret (RMessage 404 "Post not found")
         | Some post =>
             broadcastUpdate "post_updated" (PPost post) >>
             ret (RPost 200 post)
         end
     end)
    (fun error =>
       match error with
       | ZodError => ret (RMessage 400 "Invalid update data")
       | _ => ret (RMessage 500 "Failed to update post")
       end).

(** [app.get('/api/events', ...)]: a new connection joins the set and is
    greeted; [req.on('close')] takes it out again. *)
Definition connected : Message := mkMessage "connected" PNone.

Definition events_open (res : nat) : M unit :=
  modify (set_conns (set_add res)) >>
  res_write res connected.

Definition events_close (res : nat) : M unit :=
  modify (set_conns (set_delete res)).

(* ================================================================== *)
(** * Sequences of store operations *)

Inductive Op :=
| OpCreate (id : string) (now : Z) (insertPost : InsertPost)
| OpUpdate (id : string) (now : Z) (updateData : PartialInsertPost)
| OpDelete (id : string)
| OpView (id : string) (now : Z)
| OpLike (id : string) (now : Z).

(** The item an operation works on. *)
Definition op_target (o : Op) : string :=
  match o with
  | OpCreate id _ _ | OpUpdate id _ _ | OpDelete id
  | OpView id _ | OpLike id _ => id
  end.

Definition run_op (o : Op) : M unit :=
  match o with
  | OpCreate id now ins => createPost id now ins >> ret tt
  | OpUpdate id now upd => updatePost id now upd >> ret tt
  | OpDelete id => deletePost id >> ret tt
  | OpView id now => incrementViews id now
  | OpLike id now => toggleLike id now >> ret tt
  end.

Definition run_ops (ops : list Op) (w : World) : World :=
  foldl (fun w o => snd (run_op o w)) w ops.

(* ================================================================== *)
(** * The like tracker of the public page
      ([client/src/pages/public/blog.tsx])

    The component state, the timers set by [setTimeout], and the requests
    sent.  Each handler sees the state left by the previous one.  The cache
    invalidations of [onSuccess] touch none of this and are left out. *)
Module Client.

Inductive Toast :=
| ToastAlreadyLiked            (* 'Already liked!', variant destructive *)
| ToastLikingPost (postTitle : string)   (* 'Liking post...' *)
| ToastPostLiked               (* 'Post liked!' *)
| ToastLikeError.              (* 'Error', 'Failed to like post' *)

Record State := mkState {
  likedPosts : gset string;
  isLiking : option string;
  timers : list string;      (* pending [likeMutation.mutate(postId)] calls *)
  inflight : list string;    (* requests sent and not yet answered *)
  requests : list string;    (* every POST /api/posts/:id/like sent *)
  toasts : list Toast
}.

Definition init : State := mkState ∅ None [] [] [] [].

Definition handleLike (postId postTitle : string) (c : State) : State :=
  if bool_decide (postId ∈ likedPosts c) then
    mkState (likedPosts c) (isLiking c) (timers c) (inflight c) (requests c)
            (toasts c ++ [ToastAlreadyLiked])
  else if bool_decide (isLiking c = Some postId) then c
  else
    mkState (likedPosts c) (Some postId) (timers c ++ [postId])
            (inflight c) (requests c)
            (toasts c ++ [ToastLikingPost postTitle]).

(** The oldest timer fires: [likeMutation.mutate(postId)] sends the
    request. *)
Definition timerFires (c : State) : State :=
  match timers c with
  | [] => c
  | postId :: rest =>
      mkState (likedPosts c) (isLiking c) rest (inflight c ++ [postId])
              (requests c ++ [postId]) (toasts c)
  end.

Fixpoint remove_first (x : string) (l : list string) : list string :=
  match l with
  | [] => []
  | y :: l' => if String.eqb y x then l' else y :: remove_first x l'
  end.

(** [onSuccess] of [likeMutation] *)
Definition onSuccess (postId : string) (c : State) : State :=
  mkState (likedPosts c ∪ {[postId]}) None (timers c)
          (remove_first postId (inflight c)) (requests c)
          (toasts c ++ [ToastPostLiked]).

(** [onError] of [likeMutation] *)
Definition onError (postId : string) (c : State) : State :=
  mkState (likedPosts c) None (timers c)
          (remove_first postId (inflight c)) (requests c)
          (toasts c ++ [ToastLikeError]).

Inductive Action :=
| Click (postId postTitle : string)
| TimerFires
| Succeeds (postId : string)
| Fails (postId : string).

Definition step (c : State) (a : Action) : State :=
  match a with
  | Click postId postTitle => handleLike postId postTitle c
  | TimerFires => timerFires c
  | Succeeds postId => onSuccess postId c
  | Fails postId => onError postId c
  end.

Definition run (acts : list Action) (c : State) : State := foldl step c acts.

End Client.

(* ================================================================== *)
(** * Vocabulary of the properties *)

(** Most recent first. *)
Definition newer_first (a b : Post) : Prop := createdAt b ≤ createdAt a.

(** The two parts of the asset reference are both [null] or both set. *)
Definition paired (url fname : option string) : Prop :=
  url = None ↔ fname = None.

Definition asset_paired (p : Post) : Prop :=
  paired (imageUrl p) (imageFileName p).

(** An operation whose input carries the two parts together: a create with
    both or neither, an update with both keys absent or both present and
    then both [null] or both set. *)
Definition op_paired (o : Op) : Prop :=
  match o with
  | OpCreate _ _ ins => paired (ins_imageUrl ins) (ins_imageFileName ins)
  | OpUpdate _ _ upd =>
      match upd_imageUrl upd, upd_imageFileName upd with
      | None, None => True
      | Some url, Some fname => paired url fname
      | _, _ => False
      end
  | _ => True
  end.

(** Create, update or delete. *)
Definition is_cud (o : Op) : bool :=
  match o with
  | OpCreate _ _ _ | OpUpdate _ _ _ | OpDelete _ => true
  | _ => false
  end.

(** A like of item [id]. *)
Definition is_like_of (id : string) (o : Op) : bool :=
  match o with
  | OpLike id' _ => String.eqb id' id
  | _ => false
  end.

Definition like_count (id : string) (ops : list Op) : nat :=
  length (filter (fun o => is_like_of id o = true) ops).

(** The events a handler added to the log. *)
Definition is_stringify (e : Event) : bool :=
  match e with EvStringify _ => true | _ => false end.

Definition is_write_to (res : nat) (e : Event) : bool :=
  match e with EvResWrite c _ _ => Nat.eqb c res | _ => false end.

Definition is_unlink_of (name : string) (e : Event) : bool :=
  match e with EvUnlink n _ => String.eqb n name | _ => false end.

(** The update handler from validation on: what [put_posts] runs once the
    update data are assembled. *)
Definition put_posts_tail (id : string) (now : Z) (data : gmap string jsval)
  : M Response :=
  let* validatedData := parse insertPostSchema_partial data in
  let* post := updatePost id now validatedData in
  match post with
  | None => ret (RMessage 404 "Post not found")
  | Some post =>
      broadcastUpdate "post_updated" (PPost post) >>
      ret (RPost 200 post)
  end.

(** The handler of the exceptions of [put_posts]. *)
Definition put_posts_catch (error : Error) : M Response :=
  match error with
  | ZodError => ret (RMessage 400 "Invalid update data")
  | _ => ret (RMessage 500 "Failed to update post")
  end.

(** The outcome of a failed replacement as first stated: the update fails,
    the item keeps its reference, and the old file is still there. *)
Definition failed_replacement_claim : Prop :=
  ∀ (req : Request) (now : Z) (post : Post) (name : string) (up : Upload)
    (w : World),
    JsMap.get (params_id req) (posts w) = Some post →
    imageFileName post = Some name →
    name ≠ "" →
    file req = Some up →
    storedName up ∈ faulty w →
    ∃ w' message,
      put_posts req now w = (Ok (RMessage 500 message), w') ∧
      JsMap.get (params_id req) (posts w') = Some post ∧
      (name ∈ files w → name ∈ files w').

(** The pairing property for every run of create, update and delete from
    the empty store, with no condition on what the operations are given. *)
Definition asset_pairing_claim : Prop :=
  ∀ (ops : list Op) (w : World),
    posts w = JsMap.empty →
    Forall (fun o => is_cud o = true) ops →
    Forall asset_paired (JsMap.values (posts (run_ops ops w))).

(** ** Sample data *)

Definition sample_post : Post :=
  {| pid := "p1"; title := "A"; content := "B"; author := "C";
     category := None;
     imageUrl := Some "/uploads/old.png"; imageFileName := Some "old.png";
     views := 3; likes := 4; published := true;
     createdAt := 100; updatedAt := 100 |}.

Definition plain_post : Post :=
  {| pid := "p2"; title := "D"; content := "E"; author := "F";
     category := Some "news";
     imageUrl := None; imageFileName := None;
     views := 0; likes := 0; published := true;
     createdAt := 250; updatedAt := 250 |}.

(** One post with its image on disk, another without image; three
    subscribers, the second with a broken connection; the file system
    refuses the name [new.png]. *)
Definition sample_world : World :=
  {| posts := [("p1", sample_post); ("p2", plain_post)];
     files := {["old.png"]};
     faulty := {["new.png"]};
     sseConnections := [1; 2; 3]%nat;
     dead := {[2%nat]};
     log := [] |}.

(** A create whose input names a locator and no storage name. *)
Definition lone_locator : InsertPost :=
  {| ins_title := "A"; ins_content := "B"; ins_author := "C";
     ins_category := None;
     ins_imageUrl := Some "/uploads/x.png"; ins_imageFileName := None;
     ins_published := None |}.

Definition sample_ops : list Op :=
  [ OpLike "p1" 300;
    OpView "p2" 310;
    OpCreate "p3" 320 lone_locator;
    OpLike "p1" 330;
    OpUpdate "p2" 340 (mkPartial (Some "G") None None None None None None);
    OpLike "p2" 350;
    OpDelete "p2";
    OpLike "p1" 360 ].

Definition paired_ops : list Op :=
  [ OpCreate "p1" 100
      (mkInsertPost "A" "B" "C" None
                    (Some "/uploads/old.png") (Some "old.png") None);
    OpUpdate "p1" 110
      (mkPartial None None None None (Some None) (Some None) None);
    OpCreate "p2" 120 (mkInsertPost "D" "E" "F" None None None None);
    OpUpdate "p2" 130
      (mkPartial (Some "G") None None None
                 (Some (Some "/uploads/n.png")) (Some (Some "n.png")) None);
    OpDelete "p1" ].

(** An update of [p1] that uploads a new image, under a name the file
    system refuses. *)
Definition replace_image : Request :=
  {| params_id := "p1"; body := ∅;
     file := Some {| originalname := "new.png"; storedName := "new.png" |} |}.

(** An update of [p1] that sets the title and also names [id], [views],
    [likes] and [createdAt]. *)
Definition retitle : Request :=
  {| params_id := "p1";
     body := {[ "title" := VStr "Z"; "id" := VStr "p9"; "views" := VNum 1000;
                "likes" := VNum 1000; "createdAt" := VNum 0 ]};
     file := None |}.

(** A create with an empty title. *)
Definition untitled : Request :=
  {| params_id := "";
     body := {[ "title" := VStr ""; "content" := VStr "B";
                "author" := VStr "C" ]};
     file := None |}.

Definition empty_world : World :=
  {| posts := JsMap.empty; files := ∅; faulty := ∅;
     sseConnections := []; dead := ∅; log := [] |}.

(* ================================================================== *)
(** * [async] functions and their [await] points

    The handlers above run an [async] function to its end in one go.  To
    speak of what another handler can see while the function is suspended,
    the function is also given as a task: each stretch of code between two
    [await]s is one computation in [M], and what a stretch returns is either
    the result of the function or the rest of it, to be resumed in the world
    the event loop has by then. *)
Inductive Async (A : Type) :=
| Finished (a : A)
| Awaiting (resume : World → Res (Async A) * World).
Arguments Finished {A} a.
Arguments Awaiting {A} resume.

(** The rest of [await x; k] once [x] is what the awaited function returned:
    the caller is resumed one turn after the awaited function has
    finished. *)
Fixpoint then_async {A B} (x : Async A) (k : A → M (Async B)) : Async B :=
  match x with
  | Finished a => Awaiting (k a)
  | Awaiting resume =>
      Awaiting (fun w =>
                  match resume w with
                  | (Ok x', w') => (Ok (then_async x' k), w')
                  | (Throw e, w') => (Throw e, w')
                  end)
  end.

(** [const a = await t; k(a)]: the call of [t] runs its first stretch at
    once; a rejection surfaces when the caller is resumed. *)
Definition await {A B} (t : M (Async A)) (k : A → M (Async B))
  : M (Async B) :=
  fun w =>
    match t w with
    | (Ok x, w') => (Ok (then_async x k), w')
    | (Throw e, w') => (Ok (Awaiting (throw e)), w')
    end.

(** A task resumed at once at each of its [await]s, nothing running in
    between. *)
Fixpoint finish {A} (x : Async A) (w : World) : Res A * World :=
  match x with
  | Finished a => (Ok a, w)
  | Awaiting resume =>
      match resume w with
      | (Ok x', w') => finish x' w'
      | (Throw e, w') => (Throw e, w')
      end
  end.

Definition run_task {A} (t : M (Async A)) : M A :=
  fun w =>
    match t w with
    | (Ok x, w') => finish x w'
    | (Throw e, w') => (Throw e, w')
    end.

(** [MemStorage.deleteImage] with its [await]: the unlink is issued, and its
    outcome reaches the [try]/[catch] when the function is resumed. *)
Definition deleteImage_task (filename : string) : M (Async unit) :=
  fun w =>
    match unlink filename w with
    | (Ok _, w') => (Ok (Awaiting (ret (Finished tt))), w')
    | (Throw _, w') =>
        (Ok (Awaiting
               (modify (emit (EvConsoleLog
                                (String.append "Could not delete image: " filename))) >>
                ret (Finished tt))), w')
    end.

(** [MemStorage.deletePost] with its [await]. *)
Definition deletePost_task (id : string) : M (Async bool) :=
  let* m := gets posts in
  match JsMap.get id m with
  | None => ret (Finished false)
  | Some post =>
      (* return this.posts.delete(id) *)
      let remove (_ : unit) : M (Async bool) :=
        let* present := gets (fun w => JsMap.has id (posts w)) in
        modify (set_posts (JsMap.delete id)) >>
        ret (Finished present) in
      (* if (post.imageFileName) await this.deleteImage(post.imageFileName) *)
      match imageFileName post with
      | Some name =>
          if truthy (Some name) then await (deleteImage_task name) remove
          else remove tt
      | None => remove tt
      end
  end.

(* ================================================================== *)
(** * The other request handlers ([server/routes.ts]) *)

(** [app.get('/api/posts/:id', ...)] *)
Definition get_posts_id (id : string) : M Response :=
  try_catch
    (let* post := getPost id in
     match post with
     | None => ret (RMessage 404 "Post not found")
     | Some post => ret (RPost 200 post)
     end)
    (fun _ => ret (RMessage 500 "Failed to fetch post")).

(** [app.delete('/api/posts/:id', ...)] *)
Definition delete_posts (id : string) : M Response :=
  try_catch
    (let* deleted := deletePost id in
     if negb deleted then ret (RMessage 404 "Post not found")
     else
       broadcastUpdate "post_deleted" (PId id) >>
       ret (RMessage 200 "Post deleted successfully"))
    (fun _ => ret (RMessage 500 "Failed to delete post")).

(** [app.post('/api/posts/:id/view', ...)]; [now] is the value drawn by
    [incrementViews]. *)
Definition view_posts (id : string) (now : Z) : M Response :=
  try_catch
    (incrementViews id now >>
     ret (RMessage 200 "View count updated"))
    (fun _ => ret (RMessage 500 "Failed to update view count")).

(** [app.post('/api/posts/:id/like', ...)] *)
Definition like_posts (id : string) (now : Z) : M Response :=
  try_catch
    (let* post := toggleLike id now in
     match post with
     | None => ret (RMessage 404 "Post not found")
     | Some post =>
         broadcastUpdate "post_liked" (PPost post) >>
         ret (RPost 200 post)
     end)
    (fun _ => ret (RMessage 500 "Failed to update like count")).

(** [app.get('/api/stats', ...)] *)
Record Stats := mkStats { totalPosts : Z; totalViews : Z; totalLikes : Z }.

Inductive StatsResponse :=
| RStats (s : Stats)                              (* res.json({ ... }) *)
| RStatsError (status : Z) (message : string).

(** [posts.reduce((sum, post) => sum + f(post), 0)] *)
Definition reduce_sum (f : Post → Z) (l : list Post) : Z :=
  foldl (fun sum post => sum + f post) 0 l.

Definition get_stats : M StatsResponse :=
  try_catch
    (let* l := getPosts in
     ret (RStats {| totalPosts := Z.of_nat (length l);
                    totalViews := reduce_sum views l;
                    totalLikes := reduce_sum likes l |}))
    (fun _ => ret (RStatsError 500 "Failed to fetch statistics")).

(** A run of hub operations. *)
Inductive HubOp :=
| HubOpen (res : nat)                             (* GET /api/events *)
| HubClose (res : nat)                            (* req.on('close') *)
| HubPublish (type : string) (data : Payload).    (* broadcastUpdate *)

Definition run_hub_op (o : HubOp) (w : World) : World :=
  match o with
  | HubOpen res => snd (events_open res w)
  | HubClose res => snd (events_close res w)
  | HubPublish type data => snd (broadcastUpdate type data w)
  end.

Definition run_hub (ops : list HubOp) (w : World) : World :=
  foldl (fun w o => run_hub_op o w) w ops.

(* ================================================================== *)
(** * Helpers of the pages ([client/src/pages/public/blog.tsx]) *)

(** The text [formatTimeAgo] returns, by its four shapes:
    ['Less than 1 hour ago'], [`${n} hours ago`], ['1 day ago'],
    [`${n} days ago`]. *)
Inductive TimeAgo :=
| LessThanHour
| HoursAgo (n : Z)
| OneDayAgo
| DaysAgo (n : Z).

(** [formatTimeAgo(date)]; [now] is [new Date().getTime()], [date] the time
    of the argument, both whole milliseconds, so that [Math.floor] of the
    quotient is the integer quotient. *)
Definition formatTimeAgo (now date : Z) : TimeAgo :=
  let diffInHours := (now - date) / (1000 * 60 * 60) in
  if diffInHours <? 1 then LessThanHour
  else if diffInHours <? 24 then HoursAgo diffInHours
  else if diffInHours <? 48 then OneDayAgo
  else DaysAgo (diffInHours / 24).

(** [s.split(' ')]: the pieces between the spaces, empty pieces included. *)
Fixpoint split_spaces (s : string) : list string :=
  match s with
  | EmptyString => [EmptyString]
  | String c s' =>
      if Ascii.eqb c Ascii.Space then EmptyString :: split_spaces s'
      else match split_spaces s' with
           | piece :: pieces => String c piece :: pieces
           | [] => [String c EmptyString]
           end
  end.

(** [Math.ceil(a / b)] on positive whole numbers. *)
Definition ceil_div (a b : Z) : Z :=
  if a mod b =? 0 then a / b else a / b + 1.

(** [getReadingTime(content)]: the number printed before [' min read']. *)
Definition getReadingTime (content : string) : Z :=
  let wordsPerMinute := 200 in
  let wordCount := Z.of_nat (length (split_spaces content)) in
  ceil_div wordCount wordsPerMinute.

(* ================================================================== *)
(** * The view tracker of the public page
      ([client/src/pages/public/blog.tsx])

    As for the like tracker; here the timers have different delays and one
    of them can be cleared, so each pending timer is kept with the handle
    [setTimeout] returned for it (a positive number, as in a browser). *)
Module Viewer.

Inductive Toast :=
| ToastReading (postTitle : string)   (* 'Reading post...' *)
| ToastViewed                         (* 'Post viewed' *)
| ToastViewError.                     (* 'Error', 'Failed to update view count' *)

Record State := mkState {
  viewedPosts : gset string;
  isViewing : option string;
  viewTimeoutRef : option nat;        (* viewTimeoutRef.current *)
  timers : list (nat * string);       (* pending [viewMutation.mutate(postId)] *)
  nextTimer : nat;                    (* the handle of the next [setTimeout] *)
  inflight : list string;             (* requests sent and not yet answered *)
  requests : list string;             (* every POST /api/posts/:id/view sent *)
  toasts : list Toast
}.

Definition init : State := mkState ∅ None None [] 1 [] [] [].

(** [clearTimeout(handle)] *)
Definition clearTimeout (handle : nat) (ts : list (nat * string))
  : list (nat * string) :=
  filter (fun t => fst t ≠ handle) ts.

Definition handleView (postId postTitle : string) (c : State) : State :=
  if bool_decide (postId ∈ viewedPosts c)
     || bool_decide (isViewing c = Some postId)
  then c
  else
    let pending :=
      match viewTimeoutRef c with
      | Some handle => clearTimeout handle (timers c)
      | None => timers c
      end in
    mkState (viewedPosts c) (Some postId) (Some (nextTimer c))
            (pending ++ [(nextTimer c, postId)]) (S (nextTimer c))
            (inflight c) (requests c)
            (toasts c ++ [ToastReading postTitle]).

(** [handleAutoView] runs inside the observer callback, which is built by
    an effect that depends on [posts] and [viewedPosts]: its two tests read
    the values [seenViewed] and [seenViewing] that [viewedPosts] and
    [isViewing] had when the callback was built, not those of the state. *)
Definition handleAutoView (seenViewed : gset string)
    (seenViewing : option string) (postId : string) (c : State) : State :=
  if bool_decide (postId ∈ seenViewed)
     || bool_decide (seenViewing = Some postId)
  then c
  else
    mkState (viewedPosts c) (Some postId) (viewTimeoutRef c)
            (timers c ++ [(nextTimer c, postId)]) (S (nextTimer c))
            (inflight c) (requests c) (toasts c).

(** The timer with this handle fires: [viewMutation.mutate(postId)] sends
    the request. *)
Definition timerFires (handle : nat) (c : State) : State :=
  match list_find (fun t => fst t = handle) (timers c) with
  | None => c
  | Some (_, (_, postId)) =>
      mkState (viewedPosts c) (isViewing c) (viewTimeoutRef c)
              (clearTimeout handle (timers c)) (nextTimer c)
              (inflight c ++ [postId]) (requests c ++ [postId]) (toasts c)
  end.

(** [onSuccess] of [viewMutation] *)
Definition onSuccess (postId : string) (c : State) : State :=
  mkState (viewedPosts c ∪ {[postId]}) None (viewTimeoutRef c) (timers c)
          (nextTimer c) (Client.remove_first postId (inflight c))
          (requests c) (toasts c ++ [ToastViewed]).

(** [onError] of [viewMutation] *)
Definition onError (postId : string) (c : State) : State :=
  mkState (viewedPosts c) None (viewTimeoutRef c) (timers c)
          (nextTimer c) (Client.remove_first postId (inflight c))
          (requests c) (toasts c ++ [ToastViewError]).

Inductive Action :=
| Click (postId postTitle : string)
| Seen (seenViewed : gset string) (seenViewing : option string)
       (postId : string)                          (* the observer fires *)
| TimerFires (handle : nat)
| Succeeds (postId : string)
| Fails (postId : string).

Definition step (c : State) (a : Action) : State :=
  match a with
  | Click postId postTitle => handleView postId postTitle c
  | Seen seenViewed seenViewing postId =>
      handleAutoView seenViewed seenViewing postId c
  | TimerFires handle => timerFires handle c
  | Succeeds postId => onSuccess postId c
  | Fails postId => onError postId c
  end.

Definition run (acts : list Action) (c : State) : State := foldl step c acts.

End Viewer.

(* ================================================================== *)
(** * Vocabulary of the further properties *)

(** A create that (re)uses the id [id]. *)
Definition creates (id : string) (o : Op) : bool :=
  match o with
  | OpCreate id' _ _ => String.eqb id' id
  | _ => false
  end.

(** A view of item [id]. *)
Definition is_view_of (id : string) (o : Op) : bool :=
  match o with
  | OpView id' _ => String.eqb id' id
  | _ => false
  end.

Definition view_count (id : string) (ops : list Op) : nat :=
  length (filter (fun o => is_view_of id o = true) ops).

(** Every entry of the map sits under the id it carries. *)
Definition keyed_by_id (m : JsMap.t) : Prop :=
  Forall (fun kv => pid (snd kv) = fst kv) m.

(** The items of a list created at time [t], in the order of the list. *)
Definition created_at (t : Z) (l : list Post) : list Post :=
  filter (fun p => createdAt p = t) l.

(** A response of the like tracker answers a request that is in flight. *)
Definition like_enabled (c : Client.State) (a : Client.Action) : Prop :=
  match a with
  | Client.Succeeds postId | Client.Fails postId => postId ∈ Client.inflight c
  | _ => True
  end.

(** A run of the like tracker in which every response is enabled. *)
Fixpoint like_run_ok (c : Client.State) (acts : list Client.Action) : Prop :=
  match acts with
  | [] => True
  | a :: acts' => like_enabled c a ∧ like_run_ok (Client.step c a) acts'
  end.

(** The action concerns item [postId] or no item at all. *)
Definition like_action_on (postId : string) (a : Client.Action) : Prop :=
  match a with
  | Client.Click i _ | Client.Succeeds i | Client.Fails i => i = postId
  | Client.TimerFires => True
  end.

(** The state of the like tracker while only item [id] is acted on: nothing
    is outstanding, or exactly one submission for [id] is, and the marker
    points at it. *)
Definition single_flight (id : string) (c : Client.State) : Prop :=
  (Client.timers c ++ Client.inflight c = [])%list ∨
  ((Client.timers c ++ Client.inflight c = [id])%list ∧
   Client.isLiking c = Some id).

(** The view tracker has at most the one timer its ref points at. *)
Definition one_timer (c : Viewer.State) : Prop :=
  Viewer.timers c = [] ∨
  ∃ handle postId, Viewer.timers c = [(handle, postId)] ∧
                   Viewer.viewTimeoutRef c = Some handle.

(** A manual action of the view tracker (anything but the observer). *)
Definition manual (a : Viewer.Action) : Prop :=
  match a with
  | Viewer.Seen _ _ _ => False
  | _ => True
  end.

(** An observer callback, if the action is one, was built when [postId] was
    already in [viewedPosts]. *)
Definition built_after_view (postId : string) (a : Viewer.Action) : Prop :=
  match a with
  | Viewer.Seen seenViewed _ _ => postId ∈ seenViewed
  | _ => True
  end.

(* ================================================================== *)
(** * Running a [bind] *)

Lemma bind_ok {A B} (m : M A) (k : A → M B) (w w1 : World) (a : A) :
  m w = (Ok a, w1) → bind m k w = k a w1.
Proof. unfold bind. by intros ->. Qed.

Lemma bind_throw {A B} (m : M A) (k : A → M B) (w w1 : World) (e : Error) :
  m w = (Throw e, w1) → bind m k w = (Throw e, w1).
Proof. unfold bind. by intros ->. Qed.

(* ================================================================== *)
(** * Facts about [JsMap] *)
Section JsMapFacts.
Implicit Types (k : string) (v : Post) (m : JsMap.t).

Lemma get_set_eq k v m : JsMap.get k (JsMap.set k v m) = Some v.
Proof.
  induction m as [|[k' v'] m IH]; simpl.
  - by rewrite String.eqb_refl.
  - destruct (String.eqb k' k) eqn:E; simpl.
    + by rewrite String.eqb_refl.
    + by rewrite E.
Qed.

Lemma get_set_ne k k' v m :
  k ≠ k' → JsMap.get k' (JsMap.set k v m) = JsMap.get k' m.
Proof.
  intros Hne. induction m as [|[k0 v0] m IH]; simpl.
  - by apply String.eqb_neq in Hne as ->.
  - destruct (String.eqb k0 k) eqn:E; simpl.
    + apply String.eqb_eq in E as ->.
      by apply String.eqb_neq in Hne as ->.
    + by rewrite IH.
Qed.

Lemma get_delete_eq k m : JsMap.get k (JsMap.delete k m) = None.
Proof.
  unfold JsMap.delete.
  induction m as [|[k' v'] m IH]; [done|].
  rewrite filter_cons. case_decide as Hd; simpl in *; [|done].
  destruct (String.eqb k' k); [done|]. apply IH.
Qed.

Lemma get_delete_ne k k' m :
  k ≠ k' → JsMap.get k' (JsMap.delete k m) = JsMap.get k' m.
Proof.
  intros Hne. unfold JsMap.delete.
  induction m as [|[k0 v0] m IH]; [done|].
  rewrite filter_cons. case_decide as Hd; simpl in *.
  - by rewrite IH.
  - destruct (String.eqb k0 k) eqn:E; [|done].
    apply String.eqb_eq in E as ->.
    by apply String.eqb_neq in Hne as ->.
Qed.

Lemma delete_no_entry k v m : (k, v) ∉ JsMap.delete k m.
Proof.
  unfold JsMap.delete. intros [Hk _]%list_elem_of_filter.
  simpl in Hk. by rewrite String.eqb_refl in Hk.
Qed.

Lemma delete_absent k m : JsMap.get k m = None → JsMap.delete k m = m.
Proof.
  unfold JsMap.delete.
  induction m as [|[k' v'] m IH]; [done|]. simpl.
  destruct (String.eqb k' k) eqn:E; [done|]. intros Hm.
  rewrite filter_cons. case_decide as Hd; simpl in *.
  - by rewrite IH.
  - by rewrite E in Hd.
Qed.

Lemma get_Some_entry k v m : JsMap.get k m = Some v → (k, v) ∈ m.
Proof.
  induction m as [|[k' v'] m IH]; [done|]. simpl.
  destruct (String.eqb k' k) eqn:E.
  - apply String.eqb_eq in E as ->. intros [= ->]. apply list_elem_of_here.
  - intros H. apply list_elem_of_further. auto.
Qed.

Lemma get_Some_value k v m : JsMap.get k m = Some v → v ∈ JsMap.values m.
Proof.
  intros H%get_Some_entry. unfold JsMap.values.
  apply list_elem_of_fmap. by exists (k, v).
Qed.

Lemma values_set (P : Post → Prop) k v m :
  P v → Forall P (JsMap.values m) → Forall P (JsMap.values (JsMap.set k v m)).
Proof.
  intros Hv. unfold JsMap.values.
  induction m as [|[k' v'] m IH]; simpl; intros Hm.
  - by constructor.
  - apply Forall_cons in Hm as [Hv' Hm].
    destruct (String.eqb k' k); simpl; constructor; auto.
Qed.

Lemma values_delete (P : Post → Prop) k m :
  Forall P (JsMap.values m) → Forall P (JsMap.values (JsMap.delete k m)).
Proof.
  unfold JsMap.values, JsMap.delete. rewrite !Forall_fmap.
  rewrite !Forall_forall. intros Hm x [_ Hx]%list_elem_of_filter. auto.
Qed.

End JsMapFacts.

(* ================================================================== *)
(** * Facts about the sort of [getPosts] *)
Section SortFacts.
Context {A : Type} (cmp : A → A → Z).

Lemma js_insert_perm x l : js_insert cmp x l ≡ₚ x :: l.
Proof.
  induction l as [|y l IH]; simpl; [done|].
  destruct (cmp x y <=? 0); [done|].
  rewrite IH. apply Permutation_swap.
Qed.

Lemma js_sort_perm l : js_sort cmp l ≡ₚ l.
Proof.
  induction l as [|x l IH]; simpl; [done|].
  by rewrite js_insert_perm, IH.
Qed.

End SortFacts.

Lemma js_insert_sorted x l :
  StronglySorted newer_first l →
  StronglySorted newer_first (js_insert byCreatedDesc x l).
Proof.
  induction 1 as [|y l Hl IH Hy]; simpl.
  - repeat constructor.
  - unfold byCreatedDesc at 1.
    destruct (Z.leb_spec (createdAt y - createdAt x) 0) as [Hle|Hgt].
    + constructor; [by constructor|].
      constructor; [unfold newer_first; lia|].
      eapply Forall_impl; [exact Hy|]. unfold newer_first. intros; lia.
    + constructor; [done|].
      rewrite js_insert_perm. constructor; [|done].
      unfold newer_first. lia.
Qed.

Lemma js_sort_sorted l : StronglySorted newer_first (js_sort byCreatedDesc l).
Proof.
  induction l as [|x l IH]; simpl; [constructor|].
  by apply js_insert_sorted.
Qed.

(* ================================================================== *)
(** * Facts about [MemStorage] *)

(** The world [deleteImage] leaves: the file is gone when the unlink went
    through, otherwise the failure is logged and nothing else changes. *)
Lemma deleteImage_run name w :
  deleteImage name w =
    (Ok tt,
     if can_unlink name w
     then emit (EvUnlink name true) (set_files (fun fs => fs ∖ {[name]}) w)
     else emit (EvConsoleLog (String.append "Could not delete image: " name))
               (emit (EvUnlink name false) w)).
Proof.
  unfold deleteImage, try_catch, unlink, modify.
  by destruct (can_unlink name w).
Qed.

Lemma deleteImage_posts name w : posts (snd (deleteImage name w)) = posts w.
Proof. rewrite deleteImage_run. simpl. by destruct (can_unlink name w). Qed.

Lemma deleteImage_conns name w :
  sseConnections (snd (deleteImage name w)) = sseConnections w.
Proof. rewrite deleteImage_run. simpl. by destruct (can_unlink name w). Qed.

Lemma deleteImage_log name w :
  log (snd (deleteImage name w)) =
    (log w ++ EvUnlink name (can_unlink name w)
           :: (if can_unlink name w then []
               else [EvConsoleLog (String.append "Could not delete image: " name)]))%list.
Proof.
  rewrite deleteImage_run. simpl.
  destruct (can_unlink name w); simpl; [done|]. by rewrite <- app_assoc.
Qed.

Lemma when_truthy_deleteImage_ok o w :
  fst (when_truthy o deleteImage w) = Ok tt.
Proof.
  destruct o as [s|]; simpl; [|done].
  destruct (negb _); [|done]. by rewrite deleteImage_run.
Qed.

Lemma when_truthy_deleteImage_posts o w :
  posts (snd (when_truthy o deleteImage w)) = posts w.
Proof.
  destruct o as [s|]; simpl; [|done].
  destruct (negb _); [|done]. apply deleteImage_posts.
Qed.

Lemma when_truthy_run o k w :
  truthy o = true → ∃ name, o = Some name ∧ name ≠ "" ∧ when_truthy o k w = k name w.
Proof.
  destruct o as [s|]; simpl; [|done]. intros H. exists s.
  rewrite H. split_and!; [done| |done].
  intros ->. by rewrite String.eqb_refl in H.
Qed.

Lemma truthy_Some name : name ≠ "" → truthy (Some name) = true.
Proof. intros H. simpl. by apply String.eqb_neq in H as ->. Qed.

(** [deletePost] in one equation: absent, it answers [false] and touches
    nothing; present, it answers [true] from the world the release attempt
    left, with the entry removed. *)
Lemma deletePost_run id w :
  deletePost id w =
    match JsMap.get id (posts w) with
    | None => (Ok false, w)
    | Some post =>
        (Ok true,
         set_posts (JsMap.delete id)
                   (snd (when_truthy (imageFileName post) deleteImage w)))
    end.
Proof.
  unfold deletePost, bind, gets. simpl.
  destruct (JsMap.get id (posts w)) as [post|] eqn:Hget; [|done].
  pose proof (when_truthy_deleteImage_ok (imageFileName post) w) as Hok.
  pose proof (when_truthy_deleteImage_posts (imageFileName post) w) as Hposts.
  destruct (when_truthy (imageFileName post) deleteImage w) as [r w1].
  simpl in *. subst r. unfold modify, ret, JsMap.has.
  by rewrite Hposts, Hget.
Qed.

Lemma toggleLike_run id now w :
  toggleLike id now w =
    match JsMap.get id (posts w) with
    | None => (Ok None, w)
    | Some post =>
        let post' :=
          mkPost (pid post) (title post) (content post) (author post)
                 (category post) (imageUrl post) (imageFileName post)
                 (views post) (likes post + 1) (published post)
                 (createdAt post) now in
        (Ok (Some post'), set_posts (JsMap.set id post') w)
    end.
Proof.
  unfold toggleLike, bind, gets. simpl.
  by destruct (JsMap.get id (posts w)).
Qed.

Lemma updatePost_run id now upd w :
  updatePost id now upd w =
    match JsMap.get id (posts w) with
    | None => (Ok None, w)
    | Some post =>
        (Ok (Some (merge post upd now)),
         set_posts (JsMap.set id (merge post upd now)) w)
    end.
Proof.
  unfold updatePost, bind, gets. simpl.
  by destruct (JsMap.get id (posts w)).
Qed.

(** An operation leaves the entries of the other items alone. *)
Lemma run_op_other o id w :
  op_target o ≠ id →
  JsMap.get id (posts (snd (run_op o w))) = JsMap.get id (posts w).
Proof.
  intros Hne. destruct o as [i now ins|i now upd|i|i now|i now]; simpl in Hne.
  - simpl. unfold bind, createPost, modify, ret. simpl. by apply get_set_ne.
  - simpl. unfold bind. rewrite updatePost_run.
    destruct (JsMap.get i (posts w)); simpl; [|done]. by apply get_set_ne.
  - simpl. unfold bind. rewrite deletePost_run.
    destruct (JsMap.get i (posts w)); simpl; [|done].
    rewrite get_delete_ne by done.
    by rewrite when_truthy_deleteImage_posts.
  - simpl. unfold incrementViews, bind, gets. simpl.
    destruct (JsMap.get i (posts w)); simpl; [|done]. by apply get_set_ne.
  - simpl. unfold bind. rewrite toggleLike_run.
    destruct (JsMap.get i (posts w)); simpl; [|done]. by apply get_set_ne.
Qed.

(* ================================================================== *)
(** * The content store *)

(** C7. For an item of the store, [deletePost] answers [true]; afterwards
    [getPost] finds nothing under the id and a second [deletePost] answers
    [false], without throwing and without changing anything. *)
Theorem delete_then_refetch (id : string) (post : Post) (w : World) :
  JsMap.get id (posts w) = Some post →
  ∃ w', deletePost id w = (Ok true, w') ∧
        getPost id w' = (Ok None, w') ∧
        deletePost id w' = (Ok false, w').
Proof.
  intros Hget.
  pose (w' := set_posts (JsMap.delete id)
                (snd (when_truthy (imageFileName post) deleteImage w))).
  assert (JsMap.get id (posts w') = None) as Hnone by apply get_delete_eq.
  exists w'. split_and!.
  - by rewrite deletePost_run, Hget.
  - unfold getPost, bind, gets, ret. by rewrite Hnone.
  - by rewrite deletePost_run, Hnone.
Qed.

Lemma delete_then_refetch_witness :
  JsMap.get "p1" (posts sample_world) = Some sample_post ∧
  ∃ w', deletePost "p1" sample_world = (Ok true, w') ∧
        getPost "p1" w' = (Ok None, w') ∧
        deletePost "p1" w' = (Ok false, w').
Proof.
  split; [reflexivity|].
  apply (delete_then_refetch "p1" sample_post sample_world). reflexivity.
Defined.

(** The first stretch of [deleteImage]: the unlink is attempted, and the
    rest only has the failure to log. *)
Lemma deleteImage_task_first (name : string) (w : World) :
  deleteImage_task name w =
    if can_unlink name w
    then (Ok (Awaiting (ret (Finished tt))),
          emit (EvUnlink name true) (set_files (fun fs => fs ∖ {[name]}) w))
    else (Ok (Awaiting
                (modify (emit (EvConsoleLog
                                 (String.append "Could not delete image: " name))) >>
                 ret (Finished tt))),
          emit (EvUnlink name false) w).
Proof.
  unfold deleteImage_task, unlink. by destruct (can_unlink name w).
Qed.

(** Resumed at once at each [await], the task of [deletePost] is the
    [deletePost] the handlers run. *)
Lemma deletePost_task_run (id : string) (w : World) :
  run_task (deletePost_task id) w = deletePost id w.
Proof.
  rewrite deletePost_run. unfold run_task, deletePost_task.
  rewrite (bind_ok _ _ w w (posts w)) by reflexivity.
  destruct (JsMap.get id (posts w)) as [post|] eqn:Hget; [|done].
  cbv zeta.
  destruct (imageFileName post) as [name|]; simpl.
  - destruct (negb (String.eqb name "")).
    + unfold await. rewrite deleteImage_task_first, deleteImage_run.
      destruct (can_unlink name w); simpl; unfold JsMap.has; by rewrite Hget.
    + simpl. unfold JsMap.has. by rewrite Hget.
  - unfold JsMap.has. by rewrite Hget.
Qed.

(** C6. For an item with an attached asset (a storage name that is set and
    not empty), [deletePost] runs in three stretches.  The first attempts
    the unlink and stops at the [await]: the outcome is in the log, the file
    is gone if the unlink went through, and the posts are untouched, so
    [getPost] and [getPosts] still reach the item.  The second, resumed in
    any world, logs the failure if there was one and touches nothing else.
    Only the third removes the entry, in whatever world it is resumed.  No
    stretch throws, whatever the outcome of the unlink; run without
    interruption this is the [deletePost] of the handlers, which answers
    [true] and leaves the item unreachable. *)
Theorem delete_releases_asset_first
    (id name : string) (post : Post) (w : World) :
  JsMap.get id (posts w) = Some post →
  imageFileName post = Some name →
  name ≠ "" →
  ∃ (w1 : World) (resume1 resume2 : M (Async bool)),
    deletePost_task id w = (Ok (Awaiting resume1), w1) ∧
    log w1 = (log w ++ [EvUnlink name (can_unlink name w)])%list ∧
    files w1 = (if can_unlink name w then files w ∖ {[name]} else files w) ∧
    posts w1 = posts w ∧
    getPost id w1 = (Ok (Some post), w1) ∧
    (∃ l, getPosts w1 = (Ok l, w1) ∧ post ∈ l) ∧
    (∀ wa,
       resume1 wa =
         (Ok (Awaiting resume2),
          if can_unlink name w then wa
          else emit (EvConsoleLog
                       (String.append "Could not delete image: " name)) wa)) ∧
    (∀ wb,
       resume2 wb =
         (Ok (Finished (JsMap.has id (posts wb))),
          set_posts (JsMap.delete id) wb)) ∧
    ∃ w2,
      run_task (deletePost_task id) w = (Ok true, w2) ∧
      deletePost id w = (Ok true, w2) ∧
      getPost id w2 = (Ok None, w2) ∧
      (∀ q, (id, q) ∉ posts w2).
Proof.
  intros Hget Hname Hne.
  pose proof (truthy_Some name Hne) as Htruthy. simpl in Htruthy.
  unfold deletePost_task.
  rewrite (bind_ok _ _ w w (posts w)) by reflexivity.
  rewrite Hget, Hname. simpl. rewrite Htruthy.
  unfold await. rewrite deleteImage_task_first.
  assert (∃ w2, deletePost id w = (Ok true, w2) ∧
                getPost id w2 = (Ok None, w2) ∧ (∀ q, (id, q) ∉ posts w2))
    as (w2 & Hrun & Hgone & Hnone).
  { eexists. split; [by rewrite deletePost_run, Hget|]. split.
    - unfold getPost, bind, gets, ret. simpl. by rewrite get_delete_eq.
    - intros q. simpl. apply delete_no_entry. }
  assert (run_task (deletePost_task id) w = (Ok true, w2)) as Htask
    by (by rewrite deletePost_task_run).
  destruct (can_unlink name w); simpl;
    (eexists _, _, _; split; [reflexivity|]; simpl;
     split_and!; try done;
     [ unfold getPost, bind, gets, ret; simpl; by rewrite Hget
     | eexists; split; [reflexivity|]; simpl;
       rewrite js_sort_perm; by eapply get_Some_value
     | by exists w2 ]).
Qed.

Lemma delete_releases_asset_first_witness :
  ∃ (w1 : World) (resume1 resume2 : M (Async bool)),
    deletePost_task "p1" sample_world = (Ok (Awaiting resume1), w1) ∧
    log w1 = (log sample_world
                ++ [EvUnlink "old.png" (can_unlink "old.png" sample_world)])%list ∧
    files w1 = (if can_unlink "old.png" sample_world
                then files sample_world ∖ {["old.png"]}
                else files sample_world) ∧
    posts w1 = posts sample_world ∧
    getPost "p1" w1 = (Ok (Some sample_post), w1) ∧
    (∃ l, getPosts w1 = (Ok l, w1) ∧ sample_post ∈ l) ∧
    (∀ wa,
       resume1 wa =
         (Ok (Awaiting resume2),
          if can_unlink "old.png" sample_world then wa
          else emit (EvConsoleLog
                       (String.append "Could not delete image: " "old.png")) wa)) ∧
    (∀ wb,
       resume2 wb =
         (Ok (Finished (JsMap.has "p1" (posts wb))),
          set_posts (JsMap.delete "p1") wb)) ∧
    ∃ w2,
      run_task (deletePost_task "p1") sample_world = (Ok true, w2) ∧
      deletePost "p1" sample_world = (Ok true, w2) ∧
      getPost "p1" w2 = (Ok None, w2) ∧
      (∀ q, ("p1", q) ∉ posts w2).
Proof.
  apply (delete_releases_asset_first "p1" "old.png" sample_post sample_world);
    [reflexivity | reflexivity | discriminate].
Defined.

(** C8. [getPosts] never throws and changes nothing; its answer holds
    exactly the items of the store, the most recently created first. *)
Theorem list_newest_first (w : World) :
  ∃ l, getPosts w = (Ok l, w) ∧
       l ≡ₚ JsMap.values (posts w) ∧
       StronglySorted newer_first l.
Proof.
  eexists. split; [reflexivity|]. split.
  - apply js_sort_perm.
  - apply js_sort_sorted.
Qed.

(** The counter of [id] after a run of likes of [id] and of operations on
    other items. *)
Lemma likes_after_ops (id : string) (ops : list Op) :
  ∀ (w : World) (post : Post),
    JsMap.get id (posts w) = Some post →
    Forall (fun o => is_like_of id o = true ∨ op_target o ≠ id) ops →
    ∃ post', JsMap.get id (posts (run_ops ops w)) = Some post' ∧
             likes post' = likes post + Z.of_nat (like_count id ops).
Proof.
  induction ops as [|o ops IH]; intros w post Hget Hops.
  - exists post. split; [done|]. change (like_count id []) with 0%nat. lia.
  - apply Forall_cons in Hops as [Ho Hops]. simpl.
    unfold like_count. rewrite filter_cons.
    destruct (is_like_of id o) eqn:Hlike.
    + destruct o as [| | | |i now]; try discriminate.
      simpl in Hlike. apply String.eqb_eq in Hlike as ->.
      rewrite decide_True by done.
      assert (∃ q, JsMap.get id (posts (snd (run_op (OpLike id now) w))) = Some q
                   ∧ likes q = likes post + 1) as (q & Hq & Hq1).
      { simpl. unfold bind. rewrite toggleLike_run, Hget. simpl.
        eexists. split; [apply get_set_eq|done]. }
      destruct (IH _ _ Hq Hops) as (post' & Hget' & Hlikes).
      exists post'. split; [done|]. rewrite Hlikes, Hq1. simpl.
      unfold like_count. lia.
    + destruct Ho as [?|Hne]; [done|].
      rewrite decide_False by done.
      assert (JsMap.get id (posts (snd (run_op o w))) = Some post) as Hq
        by (by rewrite run_op_other).
      destruct (IH _ _ Hq Hops) as (post' & Hget' & Hlikes).
      exists post'. split; [done|]. exact Hlikes.
Qed.

(** C4. On an item of the store, [toggleLike] answers the item with its
    counter raised by one and stores it; after any run made of likes of
    [id] and of operations on other items the counter is larger by the
    number of likes of [id] in the run; on an absent id [toggleLike]
    answers nothing and leaves the world as it was. *)
Theorem like_counts_every_call (id : string) (w : World) :
  match JsMap.get id (posts w) with
  | Some post =>
      (∀ now, ∃ post',
          toggleLike id now w = (Ok (Some post'), set_posts (JsMap.set id post') w) ∧
          likes post' = likes post + 1 ∧
          JsMap.get id (JsMap.set id post' (posts w)) = Some post') ∧
      (∀ ops,
          Forall (fun o => is_like_of id o = true ∨ op_target o ≠ id) ops →
          ∃ post', JsMap.get id (posts (run_ops ops w)) = Some post' ∧
                   likes post' = likes post + Z.of_nat (like_count id ops))
  | None => ∀ now, toggleLike id now w = (Ok None, w)
  end.
Proof.
  destruct (JsMap.get id (posts w)) as [post|] eqn:Hget.
  - split.
    + intros now. eexists. rewrite toggleLike_run, Hget. simpl.
      split_and!; [reflexivity|reflexivity|apply get_set_eq].
    + intros ops Hops. by apply likes_after_ops.
  - intros now. by rewrite toggleLike_run, Hget.
Qed.

Lemma like_counts_every_call_witness :
  ∃ post', JsMap.get "p1" (posts (run_ops sample_ops sample_world)) = Some post' ∧
           likes post' = likes sample_post + Z.of_nat (like_count "p1" sample_ops).
Proof.
  pose proof (like_counts_every_call "p1" sample_world) as H.
  simpl in H. destruct H as [_ H]. apply (H sample_ops).
  unfold sample_ops.
  repeat (constructor; [first [by left | by right]|]). constructor.
Defined.

(** An operation given paired asset parts keeps every item paired. *)
Lemma run_op_paired (o : Op) (w : World) :
  op_paired o →
  Forall asset_paired (JsMap.values (posts w)) →
  Forall asset_paired (JsMap.values (posts (snd (run_op o w)))).
Proof.
  intros Ho Hw.
  assert (∀ i q, JsMap.get i (posts w) = Some q → asset_paired q) as Hin.
  { intros i q Hq%get_Some_value. by eapply Forall_forall in Hw. }
  destruct o as [i now ins|i now upd|i|i now|i now]; simpl in *.
  - unfold bind, createPost, modify, ret. simpl. by apply values_set.
  - unfold bind. rewrite updatePost_run.
    destruct (JsMap.get i (posts w)) as [q|] eqn:Hq; simpl; [|done].
    apply values_set; [|done]. specialize (Hin _ _ Hq).
    unfold asset_paired, merge in *. simpl.
    destruct (upd_imageUrl upd), (upd_imageFileName upd); simpl; done.
  - unfold bind. rewrite deletePost_run.
    destruct (JsMap.get i (posts w)) as [q|]; simpl; [|done].
    apply values_delete. by rewrite when_truthy_deleteImage_posts.
  - unfold incrementViews, bind, gets. simpl.
    destruct (JsMap.get i (posts w)) as [q|] eqn:Hq; simpl; [|done].
    apply values_set; [|done]. exact (Hin _ _ Hq).
  - unfold bind. rewrite toggleLike_run.
    destruct (JsMap.get i (posts w)) as [q|] eqn:Hq; simpl; [|done].
    apply values_set; [|done]. exact (Hin _ _ Hq).
Qed.

Lemma run_ops_paired (ops : list Op) :
  ∀ w, Forall op_paired ops →
       Forall asset_paired (JsMap.values (posts w)) →
       Forall asset_paired (JsMap.values (posts (run_ops ops w))).
Proof.
  induction ops as [|o ops IH]; intros w Hops Hw; [done|].
  apply Forall_cons in Hops as [Ho Hops]. simpl.
  apply IH; [done|]. by apply run_op_paired.
Qed.

(** C2, as amended. From the empty store, after any run of operations each
    of which is given its two asset parts together (see [op_paired]), every
    item of the store has both parts [null] or both set. *)
Theorem asset_pairing_of_paired_inputs (ops : list Op) (w : World) :
  posts w = JsMap.empty →
  Forall op_paired ops →
  Forall asset_paired (JsMap.values (posts (run_ops ops w))).
Proof.
  intros Hempty Hops. apply run_ops_paired; [done|].
  rewrite Hempty. constructor.
Qed.

Lemma asset_pairing_of_paired_inputs_witness :
  Forall asset_paired (JsMap.values (posts (run_ops paired_ops empty_world))).
Proof.
  apply (asset_pairing_of_paired_inputs paired_ops empty_world);
    [reflexivity|].
  unfold paired_ops, op_paired, paired. repeat constructor; simpl; done.
Defined.

(** C2, as stated, fails: the store keeps what [createPost] is given, and
    [InsertPost] lets the locator come without the storage name. *)
Lemma asset_pairing_counterexample : ¬ asset_pairing_claim.
Proof.
  intros H.
  specialize (H [OpCreate "p1" 100 lone_locator] empty_world eq_refl).
  assert (Forall (fun o => is_cud o = true) [OpCreate "p1" 100 lone_locator])
    as Hcud by (by repeat constructor).
  specialize (H Hcud). simpl in H.
  apply Forall_cons in H as [[_ H] _]. simpl in H.
  discriminate (H eq_refl).
Qed.

(* ================================================================== *)
(** * The broadcast hub *)

Lemma filter_ext_in {A} (P Q : A → Prop)
    `{!∀ x, Decision (P x), !∀ x, Decision (Q x)} (l : list A) :
  (∀ x, x ∈ l → P x ↔ Q x) → filter P l = filter Q l.
Proof.
  induction l as [|x l IH]; intros Hpq; [done|].
  rewrite !filter_cons.
  rewrite IH by (intros y Hy; apply Hpq; by right).
  assert (P x ↔ Q x) as Hx by (apply Hpq; by left).
  destruct (decide (P x)) as [HP|HP], (decide (Q x)) as [HQ|HQ];
    try done; tauto.
Qed.

Lemma filter_all {A} (P : A → Prop) `{!∀ x, Decision (P x)} (l : list A) :
  (∀ x, x ∈ l → P x) → filter P l = l.
Proof.
  induction l as [|x l IH]; intros Hall; [done|].
  rewrite filter_cons_True by (apply Hall; by left).
  rewrite IH; [done|]. intros y Hy. apply Hall. by right.
Qed.

(** The event one delivery leaves in the log. *)
Local Abbreviation written message w :=
  (fun c : nat => EvResWrite c message (bool_decide (c ∉ dead w))).

(** The loop of [broadcastUpdate] over members that are all still in the
    set: one write each, in order; the members whose write threw are gone
    from the set afterwards. *)
Lemma forEach_deliver (message : Message) (members : list nat) :
  ∀ w : World,
    NoDup members →
    (∀ c, c ∈ members → c ∈ sseConnections w) →
    forEach members
      (fun res => try_catch (res_write res message)
                    (fun _ => modify (set_conns (set_delete res)))) w =
    (Ok tt,
     mkWorld (posts w) (files w) (faulty w)
             (filter (fun c => ¬ (c ∈ members ∧ c ∈ dead w)) (sseConnections w))
             (dead w)
             (log w ++ map (written message w) members)).
Proof.
  induction members as [|c rest IH]; intros w Hnd Hsub.
  - simpl. unfold ret. f_equal. destruct w; simpl. f_equal.
    + symmetry. apply filter_all. intros x _ [Hx _]. by inversion Hx.
    + by rewrite app_nil_r.
  - apply NoDup_cons in Hnd as [Hc Hnd].
    simpl. unfold bind at 1. unfold gets at 1.
    rewrite bool_decide_eq_true_2 by (apply Hsub; left).
    unfold bind at 1. unfold try_catch, res_write.
    destruct (bool_decide (c ∈ dead w)) eqn:Hdead.
    + apply bool_decide_eq_true in Hdead.
      unfold modify at 1. rewrite IH; [|done|].
      * simpl. f_equal. f_equal.
        -- unfold set_delete. rewrite list_filter_filter.
           apply list_filter_iff. intros x.
           rewrite elem_of_cons. split.
           ++ intros [Hx Hne] [[->|Hin] Hd]; [done|]. by apply Hx.
           ++ intros Hx. split.
              ** intros [Hin Hd]. apply Hx. by split; [right|].
              ** intros ->. apply Hx. by split; [left|].
        -- rewrite <- app_assoc. simpl.
           by rewrite (bool_decide_eq_false_2 (c ∉ dead w)) by (by intros ?).
      * intros x Hx. simpl. unfold set_delete.
        apply list_elem_of_filter. split; [|apply Hsub; by right].
        intros ->. done.
    + apply bool_decide_eq_false in Hdead.
      rewrite IH; [|done|].
      * simpl. f_equal. f_equal.
        -- apply list_filter_iff. intros x. rewrite elem_of_cons. split.
           ++ intros Hx [[->|Hin] Hd]; [done|]. by apply Hx.
           ++ intros Hx [Hin Hd]. apply Hx. by split; [right|].
        -- rewrite <- app_assoc. simpl.
           by rewrite (bool_decide_eq_true_2 (c ∉ dead w)).
      * intros x Hx. simpl. apply Hsub. by right.
Qed.

Lemma broadcastUpdate_run (type : string) (data : Payload) (w : World) :
  NoDup (sseConnections w) →
  broadcastUpdate type data w =
    (Ok tt,
     mkWorld (posts w) (files w) (faulty w)
             (filter (fun c => c ∉ dead w) (sseConnections w))
             (dead w)
             (log w ++ EvStringify (mkMessage type data)
                    :: map (written (mkMessage type data) w) (sseConnections w))).
Proof.
  intros Hnd. unfold broadcastUpdate.
  unfold bind at 1. unfold modify at 1.
  unfold bind at 1. unfold gets at 1.
  rewrite forEach_deliver; [|done|done].
  simpl. f_equal. f_equal.
  - apply filter_ext_in. intros x Hx. split.
    + intros H Hd. apply H. by split.
    + intros H [_ Hd]. by apply H.
  - by rewrite <- app_assoc.
Qed.

Lemma writes_to_absent (message : Message) (w : World) (c : nat) (cs : list nat) :
  c ∉ cs →
  filter (fun e => is_write_to c e = true) (map (written message w) cs) = [].
Proof.
  induction cs as [|x cs IH]; intros Hc; [done|].
  apply not_elem_of_cons in Hc as [Hne Hc]. simpl.
  rewrite filter_cons_False; [by apply IH|].
  simpl. intros Heq%Nat.eqb_eq. by subst.
Qed.

Lemma writes_to_member (message : Message) (w : World) (c : nat) (cs : list nat) :
  NoDup cs → c ∈ cs →
  length (filter (fun e => is_write_to c e = true)
                 (map (written message w) cs)) = 1%nat.
Proof.
  induction cs as [|x cs IH]; intros Hnd Hc; [by inversion Hc|].
  apply NoDup_cons in Hnd as [Hx Hnd]. simpl.
  destruct (decide (x = c)) as [->|Hne].
  - rewrite filter_cons_True by (simpl; apply Nat.eqb_refl).
    by rewrite writes_to_absent.
  - rewrite filter_cons_False by (simpl; by intros ?%Nat.eqb_eq).
    apply IH; [done|]. apply elem_of_cons in Hc as [->|Hc]; done.
Qed.

Lemma no_stringify_in_writes (message : Message) (w : World) (cs : list nat) :
  filter (fun e => is_stringify e = true) (map (written message w) cs) = [].
Proof.
  induction cs as [|x cs IH]; [done|]. simpl.
  by rewrite filter_cons_False.
Qed.

(** C5. Whatever the set of connections when [broadcastUpdate] is called,
    it throws nothing and adds to the log one [JSON.stringify] followed by
    one write per connection, in order and all of the same message.  Each
    connection is written to exactly once; a connection whose write went
    through is still in the set, one whose write threw is not, and the
    writes after it are made all the same. *)
Theorem publish_reaches_every_connection
    (type : string) (data : Payload) (w : World) :
  NoDup (sseConnections w) →
  ∃ (w' : World) (new : list Event),
    broadcastUpdate type data w = (Ok tt, w') ∧
    log w' = (log w ++ new)%list ∧
    new = EvStringify (mkMessage type data)
            :: map (written (mkMessage type data) w) (sseConnections w) ∧
    length (filter (fun e => is_stringify e = true) new) = 1%nat ∧
    sseConnections w' = filter (fun c => c ∉ dead w) (sseConnections w) ∧
    posts w' = posts w ∧
    ∀ c, c ∈ sseConnections w →
         length (filter (fun e => is_write_to c e = true) new) = 1%nat ∧
         (c ∉ dead w →
            EvResWrite c (mkMessage type data) true ∈ new ∧
            c ∈ sseConnections w') ∧
         (c ∈ dead w →
            EvResWrite c (mkMessage type data) false ∈ new ∧
            c ∉ sseConnections w').
Proof.
  intros Hnd. eexists _, _.
  split; [by apply broadcastUpdate_run|]. simpl.
  split_and!; try reflexivity.
  - rewrite filter_cons_True by done. simpl.
    by rewrite no_stringify_in_writes.
  - intros c Hc. split_and!.
    + rewrite filter_cons_False by done. by apply writes_to_member.
    + intros Hlive. split.
      * right. apply list_elem_of_fmap. exists c.
        by rewrite bool_decide_eq_true_2.
      * apply list_elem_of_filter. by split.
    + intros Hdead. split.
      * right. apply list_elem_of_fmap. exists c.
        by rewrite bool_decide_eq_false_2 by (by intros ?).
      * by intros [? _]%list_elem_of_filter.
Qed.

Lemma publish_reaches_every_connection_witness :
  NoDup (sseConnections sample_world) ∧
  ∃ (w' : World) (new : list Event),
    broadcastUpdate "post_liked" (PPost sample_post) sample_world = (Ok tt, w') ∧
    log w' = (log sample_world ++ new)%list ∧
    new = EvStringify (mkMessage "post_liked" (PPost sample_post))
            :: map (written (mkMessage "post_liked" (PPost sample_post)) sample_world)
                   (sseConnections sample_world) ∧
    length (filter (fun e => is_stringify e = true) new) = 1%nat ∧
    sseConnections w' =
      filter (fun c => c ∉ dead sample_world) (sseConnections sample_world) ∧
    posts w' = posts sample_world ∧
    ∀ c, c ∈ sseConnections sample_world →
         length (filter (fun e => is_write_to c e = true) new) = 1%nat ∧
         (c ∉ dead sample_world →
            EvResWrite c (mkMessage "post_liked" (PPost sample_post)) true ∈ new ∧
            c ∈ sseConnections w') ∧
         (c ∈ dead sample_world →
            EvResWrite c (mkMessage "post_liked" (PPost sample_post)) false ∈ new ∧
            c ∉ sseConnections w').
Proof.
  assert (NoDup (sseConnections sample_world)) as Hnd
    by (apply (bool_decide_unpack _); vm_compute; exact I).
  split; [exact Hnd|].
  exact (publish_reaches_every_connection
           "post_liked" (PPost sample_post) sample_world Hnd).
Defined.

(** One delivery: the write, and on a throw the removal of the member. *)
Lemma deliver_run (message : Message) (res : nat) (w : World) :
  try_catch (res_write res message)
            (fun _ => modify (set_conns (set_delete res))) w =
    (Ok tt,
     if bool_decide (res ∈ dead w)
     then set_conns (set_delete res) (emit (EvResWrite res message false) w)
     else emit (EvResWrite res message true) w).
Proof.
  unfold try_catch, res_write, modify.
  by destruct (bool_decide (res ∈ dead w)).
Qed.

(** Without any assumption on the set: the hub throws nothing and touches
    neither the posts nor the files. *)
Lemma forEach_deliver_frame (message : Message) (members : list nat) :
  ∀ w : World,
    ∃ w', forEach members
            (fun res => try_catch (res_write res message)
                          (fun _ => modify (set_conns (set_delete res)))) w
          = (Ok tt, w') ∧
          posts w' = posts w ∧ files w' = files w.
Proof.
  induction members as [|c rest IH]; intros w.
  - by exists w.
  - simpl. rewrite (bind_ok _ _ w w (sseConnections w)) by reflexivity.
    destruct (bool_decide (c ∈ sseConnections w)).
    + rewrite (bind_ok _ _ _ _ _ (deliver_run message c w)).
      destruct (bool_decide (c ∈ dead w)).
      * destruct (IH (set_conns (set_delete c) (emit (EvResWrite c message false) w)))
          as (w' & -> & Hp & Hf).
        by exists w'.
      * destruct (IH (emit (EvResWrite c message true) w)) as (w' & -> & Hp & Hf).
        by exists w'.
    + rewrite (bind_ok _ _ w w tt) by reflexivity.
      destruct (IH w) as (w' & -> & Hp & Hf). by exists w'.
Qed.

Lemma broadcastUpdate_frame (type : string) (data : Payload) (w : World) :
  ∃ w', broadcastUpdate type data w = (Ok tt, w') ∧
        posts w' = posts w ∧ files w' = files w.
Proof.
  unfold broadcastUpdate.
  set (w1 := emit (EvStringify (mkMessage type data)) w).
  rewrite (bind_ok _ _ w w1 tt) by reflexivity.
  rewrite (bind_ok _ _ w1 w1 (sseConnections w1)) by reflexivity.
  destruct (forEach_deliver_frame (mkMessage type data) (sseConnections w1) w1)
    as (w' & -> & Hp & Hf).
  by exists w'.
Qed.

(* ================================================================== *)
(** * The request handlers *)

Lemma saveImage_run (filename : string) (w : World) :
  saveImage filename w =
    if bool_decide (filename ∈ faulty w)
    then (Throw (FsError filename), emit (EvWriteFile filename false) w)
    else (Ok (String.append "/uploads/" filename),
          emit (EvWriteFile filename true)
               (set_files (fun fs => fs ∪ {[filename]}) w)).
Proof.
  unfold saveImage, bind, writeFile.
  by destruct (bool_decide (filename ∈ faulty w)).
Qed.

Lemma when_truthy_deleteImage_run (o : option string) (w : World) :
  ∃ w1, when_truthy o deleteImage w = (Ok tt, w1) ∧
        posts w1 = posts w ∧ faulty w1 = faulty w ∧
        sseConnections w1 = sseConnections w.
Proof.
  destruct o as [s|]; simpl; [|by exists w].
  destruct (negb _); [|by exists w].
  rewrite deleteImage_run. eexists. split; [reflexivity|].
  by destruct (can_unlink s w).
Qed.

Lemma put_posts_tail_run (id : string) (now : Z) (data : gmap string jsval)
    (post : Post) (w : World) :
  JsMap.get id (posts w) = Some post →
  match insertPostSchema_partial data with
  | None => put_posts_tail id now data w = (Throw ZodError, w)
  | Some v =>
      ∃ w', put_posts_tail id now data w = (Ok (RPost 200 (merge post v now)), w') ∧
            posts w' = JsMap.set id (merge post v now) (posts w) ∧
            files w' = files w
  end.
Proof.
  intros Hget. unfold put_posts_tail, parse.
  destruct (insertPostSchema_partial data) as [v|]; [|done].
  rewrite (bind_ok _ _ w w v) by reflexivity.
  erewrite bind_ok by (rewrite updatePost_run, Hget; reflexivity).
  destruct (broadcastUpdate_frame "post_updated" (PPost (merge post v now))
              (set_posts (JsMap.set id (merge post v now)) w))
    as (w' & Hb & Hp & Hf).
  exists w'. by rewrite (bind_ok _ _ _ _ _ Hb).
Qed.

(** [put_posts] on an item of the store, in the shape of its source: the
    assembly of the update data, then [put_posts_tail], all under the
    [catch]. *)
Lemma put_posts_found (req : Request) (now : Z) (post : Post) (w : World) :
  JsMap.get (params_id req) (posts w) = Some post →
  put_posts req now w =
    try_catch
      (let* updateData :=
         match file req with
         | Some f =>
             when_truthy (imageFileName post) deleteImage >>
             let* imageUrl := saveImage (storedName f) in
             ret (<["imageFileName" := VStr (storedName f)]>
                    (<["imageUrl" := VStr imageUrl]>
                       (convert_published (body req))))
         | None => ret (convert_published (body req))
         end in
       put_posts_tail (params_id req) now updateData)
      put_posts_catch w.
Proof.
  intros Hget. unfold put_posts, try_catch.
  rewrite (bind_ok _ _ w w (Some post)); [done|].
  unfold getPost. rewrite (bind_ok _ _ w w (posts w)) by reflexivity.
  by rewrite Hget.
Qed.

(** C1, as amended. For an item with an attached asset (a storage name that
    is set and not empty), when [PUT /api/posts/:id] comes with a new image
    and the write of the new image is rejected, the answer is 500 and the
    posts are as before, so the item keeps its locator and storage name, and
    nothing is broadcast; the release of the old asset was attempted before
    the write, and the old file is gone when that unlink went through. *)
Theorem failed_replacement_keeps_reference
    (req : Request) (now : Z) (post : Post) (name : string) (up : Upload)
    (w : World) :
  JsMap.get (params_id req) (posts w) = Some post →
  imageFileName post = Some name →
  name ≠ "" →
  file req = Some up →
  storedName up ∈ faulty w →
  ∃ w',
    put_posts req now w = (Ok (RMessage 500 "Failed to update post"), w') ∧
    posts w' = posts w ∧
    sseConnections w' = sseConnections w ∧
    log w' =
      (log w ++ EvUnlink name (can_unlink name w)
             :: (if can_unlink name w then []
                 else [EvConsoleLog (String.append "Could not delete image: " name)])
             ++ [EvWriteFile (storedName up) false])%list ∧
    files w' = (if can_unlink name w then files w ∖ {[name]} else files w).
Proof.
  intros Hget Hname Hne Hfile Hfaulty.
  rewrite (put_posts_found _ _ _ _ Hget), Hfile, Hname.
  unfold try_catch.
  destruct (when_truthy_run (Some name) deleteImage w (truthy_Some _ Hne))
    as (n & [= <-] & _ & Hrun).
  set (w1 := snd (deleteImage name w)).
  assert (deleteImage name w = (Ok tt, w1)) as Hdel
    by (subst w1; by rewrite deleteImage_run).
  assert (faulty w1 = faulty w) as Hf1
    by (subst w1; rewrite deleteImage_run; simpl; by destruct (can_unlink name w)).
  erewrite bind_throw; cycle 1.
  { erewrite bind_ok by (rewrite Hrun; exact Hdel).
    erewrite bind_throw; [reflexivity|].
    rewrite saveImage_run, Hf1.
    by rewrite bool_decide_eq_true_2. }
  eexists. split; [reflexivity|]. simpl.
  split_and!.
  - apply deleteImage_posts.
  - apply deleteImage_conns.
  - subst w1. rewrite deleteImage_log. rewrite <- app_assoc. simpl.
    by destruct (can_unlink name w).
  - subst w1. rewrite deleteImage_run. simpl. by destruct (can_unlink name w).
Qed.

Lemma failed_replacement_keeps_reference_witness :
  ∃ w',
    put_posts replace_image 400 sample_world
      = (Ok (RMessage 500 "Failed to update post"), w') ∧
    posts w' = posts sample_world ∧
    sseConnections w' = sseConnections sample_world ∧
    log w' =
      (log sample_world ++ EvUnlink "old.png" (can_unlink "old.png" sample_world)
             :: (if can_unlink "old.png" sample_world then []
                 else [EvConsoleLog (String.append "Could not delete image: " "old.png")])
             ++ [EvWriteFile (storedName (mkUpload "new.png" "new.png")) false])%list ∧
    files w' = (if can_unlink "old.png" sample_world
                then files sample_world ∖ {["old.png"]}
                else files sample_world).
Proof.
  apply (failed_replacement_keeps_reference
           replace_image 400 sample_post "old.png" (mkUpload "new.png" "new.png")
           sample_world);
    [reflexivity | reflexivity | discriminate | reflexivity |].
  apply (bool_decide_unpack _). vm_compute. exact I.
Defined.

(** C1, as stated, fails: the handler unlinks the old file before it writes
    the new one, so after the rejected write the old file is gone. *)
Lemma failed_replacement_counterexample : ¬ failed_replacement_claim.
Proof.
  intros H.
  destruct (H replace_image 400 sample_post "old.png"
              (mkUpload "new.png" "new.png") sample_world)
    as (w' & message & Hrun & _ & Hkept).
  - reflexivity.
  - reflexivity.
  - discriminate.
  - reflexivity.
  - apply (bool_decide_unpack _). vm_compute. exact I.
  - assert (w' = snd (put_posts replace_image 400 sample_world)) as ->
      by (by rewrite Hrun).
    assert ("old.png" ∈ files sample_world) as Hin
      by (apply (bool_decide_unpack _); vm_compute; exact I).
    apply Hkept in Hin. revert Hin.
    apply (bool_decide_unpack _). vm_compute. exact I.
Qed.

Lemma convert_published_other (d : gmap string jsval) (k : string) :
  k ≠ "published" → convert_published d !! k = d !! k.
Proof.
  intros Hk. unfold convert_published.
  destruct (d !! "published"); [|done]. by rewrite lookup_insert_ne.
Qed.

Lemma convert_published_absent (d : gmap string jsval) :
  d !! "published" = None → convert_published d !! "published" = None.
Proof. intros H. unfold convert_published. by rewrite H. Qed.

(** A key absent from the data is absent from the validated update. *)
Lemma partial_keeps_absent (data : gmap string jsval) (v : PartialInsertPost) :
  insertPostSchema_partial data = Some v →
  (data !! "title" = None → upd_title v = None) ∧
  (data !! "content" = None → upd_content v = None) ∧
  (data !! "author" = None → upd_author v = None) ∧
  (data !! "category" = None → upd_category v = None) ∧
  (data !! "imageUrl" = None → upd_imageUrl v = None) ∧
  (data !! "imageFileName" = None → upd_imageFileName v = None) ∧
  (data !! "published" = None → upd_published v = None).
Proof.
  unfold insertPostSchema_partial. intros H.
  destruct (z_optional z_string (data !! "title")) as [t|] eqn:Ht;
    simpl in H; [|done].
  destruct (z_optional z_string (data !! "content")) as [c|] eqn:Hc;
    simpl in H; [|done].
  destruct (z_optional z_string_min1 (data !! "author")) as [a|] eqn:Ha;
    simpl in H; [|done].
  destruct (z_optional z_string (data !! "category")) as [cat|] eqn:Hcat;
    simpl in H; [|done].
  destruct (z_optional z_string_nullable (data !! "imageUrl")) as [url|] eqn:Hurl;
    simpl in H; [|done].
  destruct (z_optional z_string_nullable (data !! "imageFileName"))
    as [fname|] eqn:Hfname; simpl in H; [|done].
  destruct (z_optional z_boolean (data !! "published")) as [pub|] eqn:Hpub;
    simpl in H; [|done].
  injection H as <-. simpl.
  split_and!; intros Hk;
    [ rewrite Hk in Ht | rewrite Hk in Hc | rewrite Hk in Ha
    | rewrite Hk in Hcat | rewrite Hk in Hurl | rewrite Hk in Hfname
    | rewrite Hk in Hpub ];
    simpl in *; congruence.
Qed.

(** What an accepted update went through: the data it validated differ from
    the converted body in the two image keys at most, and not at all when
    no file came; the stored item is the merge. *)
Lemma put_posts_accepted (req : Request) (now : Z) (post : Post) (w : World)
    (st : Z) (p' : Post) (w' : World) :
  JsMap.get (params_id req) (posts w) = Some post →
  put_posts req now w = (Ok (RPost st p'), w') →
  ∃ data v,
    insertPostSchema_partial data = Some v ∧
    st = 200 ∧
    p' = merge post v now ∧
    posts w' = JsMap.set (params_id req) p' (posts w) ∧
    (∀ k, k ≠ "imageUrl" → k ≠ "imageFileName" →
          data !! k = convert_published (body req) !! k) ∧
    (file req = None → data = convert_published (body req)).
Proof.
  intros Hget. rewrite (put_posts_found _ _ _ _ Hget). unfold try_catch.
  destruct (file req) as [up|] eqn:Hfile.
  - destruct (when_truthy_deleteImage_run (imageFileName post) w)
      as (w1 & Hdel & Hp1 & Hf1 & _).
    unfold bind at 1. unfold bind at 1. rewrite Hdel.
    unfold bind at 1. rewrite saveImage_run.
    destruct (bool_decide (storedName up ∈ faulty w1)); [done|].
    unfold ret at 1.
    set (w2 := emit _ _). set (data := <["imageFileName" := _]> _).
    assert (JsMap.get (params_id req) (posts w2) = Some post) as Hget2
      by (subst w2; simpl; by rewrite Hp1).
    pose proof (put_posts_tail_run (params_id req) now data post w2 Hget2) as Htail.
    destruct (insertPostSchema_partial data) as [v|] eqn:Hparse.
    + destruct Htail as (w3 & -> & Hp3 & _). intros [= <- <- <-].
      exists data, v. split_and!; try done.
      * rewrite Hp3. subst w2. simpl. by rewrite Hp1.
      * intros k Hk1 Hk2. subst data.
        by rewrite !lookup_insert_ne.
    + by rewrite Htail.
  - unfold bind at 1. unfold ret at 1.
    pose proof (put_posts_tail_run (params_id req) now
                  (convert_published (body req)) post w Hget) as Htail.
    destruct (insertPostSchema_partial (convert_published (body req)))
      as [v|] eqn:Hparse.
    + destruct Htail as (w3 & -> & Hp3 & _). intros [= <- <- <-].
      by exists (convert_published (body req)), v.
    + by rewrite Htail.
Qed.

(** C10. When [PUT /api/posts/:id] answers with the updated item, the item
    stored under the id is that answer; its id, view counter, like counter
    and creation time are those it had; a field whose key the request did
    not supply (and, for the two image fields, when no file came either) is
    as it was; [updatedAt] is the time of the update; the other items are
    untouched. *)
Theorem accepted_update_frame (req : Request) (now : Z) (post : Post)
    (w : World) (st : Z) (p' : Post) (w' : World) :
  JsMap.get (params_id req) (posts w) = Some post →
  put_posts req now w = (Ok (RPost st p'), w') →
  JsMap.get (params_id req) (posts w') = Some p' ∧
  (∀ id', id' ≠ params_id req →
          JsMap.get id' (posts w') = JsMap.get id' (posts w)) ∧
  pid p' = pid post ∧
  views p' = views post ∧
  likes p' = likes post ∧
  createdAt p' = createdAt post ∧
  updatedAt p' = now ∧
  (body req !! "title" = None → title p' = title post) ∧
  (body req !! "content" = None → content p' = content post) ∧
  (body req !! "author" = None → author p' = author post) ∧
  (body req !! "category" = None → category p' = category post) ∧
  (body req !! "published" = None → published p' = published post) ∧
  (file req = None → body req !! "imageUrl" = None →
     imageUrl p' = imageUrl post) ∧
  (file req = None → body req !! "imageFileName" = None →
     imageFileName p' = imageFileName post).
Proof.
  intros Hget Hrun.
  destruct (put_posts_accepted _ _ _ _ _ _ _ Hget Hrun)
    as (data & v & Hparse & -> & -> & Hposts & Hkeys & Hnofile).
  destruct (partial_keeps_absent _ _ Hparse)
    as (Ht & Hc & Ha & Hcat & Hurl & Hfname & Hpub).
  split_and!; try reflexivity.
  - rewrite Hposts. apply get_set_eq.
  - intros id' Hne. rewrite Hposts. by apply get_set_ne.
  - intros Hk. simpl. rewrite Ht; [done|].
    by rewrite Hkeys, convert_published_other.
  - intros Hk. simpl. rewrite Hc; [done|].
    by rewrite Hkeys, convert_published_other.
  - intros Hk. simpl. rewrite Ha; [done|].
    by rewrite Hkeys, convert_published_other.
  - intros Hk. simpl. rewrite Hcat; [done|].
    by rewrite Hkeys, convert_published_other.
  - intros Hk. simpl. rewrite Hpub; [done|].
    by rewrite Hkeys, convert_published_absent.
  - intros Hfile Hk. simpl. rewrite Hurl; [done|].
    by rewrite (Hnofile Hfile), convert_published_other.
  - intros Hfile Hk. simpl. rewrite Hfname; [done|].
    by rewrite (Hnofile Hfile), convert_published_other.
Qed.

Lemma accepted_update_frame_witness :
  ∃ p' w',
    put_posts retitle 400 sample_world = (Ok (RPost 200 p'), w') ∧
    JsMap.get "p1" (posts w') = Some p' ∧
    pid p' = pid sample_post ∧
    views p' = views sample_post ∧
    likes p' = likes sample_post ∧
    createdAt p' = createdAt sample_post ∧
    content p' = content sample_post.
Proof.
  assert (put_posts retitle 400 sample_world =
            (Ok (RPost 200
                   (merge sample_post
                          (mkPartial (Some "Z") None None None None None None) 400)),
             snd (put_posts retitle 400 sample_world))) as Hrun
    by (vm_compute; reflexivity).
  destruct (accepted_update_frame retitle 400 sample_post sample_world _ _ _
              eq_refl Hrun)
    as (Hstored & _ & Hid & Hviews & Hlikes & Hcreated & _ & _ & Hcontent & _).
  eexists _, _. split; [exact Hrun|].
  split_and!; [exact Hstored | exact Hid | exact Hviews | exact Hlikes
              | exact Hcreated | apply Hcontent; reflexivity].
Defined.

(** The pairing can also be broken through the update handler: without a
    file, an [imageUrl] key of the body passes validation on its own. *)
Lemma lone_locator_through_update :
  ∃ p' w',
    put_posts (mkRequest "p2" {[ "imageUrl" := VStr "/uploads/x.png" ]} None)
              400 sample_world
      = (Ok (RPost 200 p'), w') ∧
    JsMap.get "p2" (posts w') = Some p' ∧
    imageUrl p' = Some "/uploads/x.png" ∧
    imageFileName p' = None.
Proof. eexists _, _. vm_compute. done. Qed.

(** The create handler answers 400 and leaves the world as it was when a
    required key is missing or the author is empty (no file uploaded). *)
Lemma create_rejects_missing (req : Request) (id : string) (now : Z) (w : World) :
  file req = None →
  body req !! "title" = None ∨ body req !! "content" = None ∨
  body req !! "author" = None ∨ body req !! "author" = Some (VStr "") →
  post_posts req id now w = (Ok (RMessage 400 "Invalid post data"), w).
Proof.
  intros Hfile Hmissing. unfold post_posts, try_catch. rewrite Hfile.
  rewrite (bind_ok _ _ w w (None, None)) by reflexivity. simpl.
  set (postData := convert_published _).
  assert (insertPostSchema postData = None) as Hparse.
  { assert (∀ k, k ≠ "published" → k ≠ "imageUrl" → k ≠ "imageFileName" →
                 postData !! k = body req !! k) as Hk.
    { intros k H1 H2 H3. subst postData.
      rewrite convert_published_other by done.
      by rewrite !lookup_insert_ne. }
    unfold insertPostSchema.
    rewrite (Hk "title"), (Hk "content"), (Hk "author") by done.
    destruct Hmissing as [-> | [-> | [-> | ->]]]; simpl; try done.
    - by destruct (z_string (body req !! "title")).
    - destruct (z_string (body req !! "title")); [|done]. simpl.
      by destruct (z_string (body req !! "content")).
    - destruct (z_string (body req !! "title")); [|done]. simpl.
      by destruct (z_string (body req !! "content")). }
  rewrite (bind_throw _ _ w w ZodError); [done|].
  unfold parse. by rewrite Hparse.
Qed.

(** C3 at the input where it fails: a create whose title is the empty string
    is answered 201, and the item is stored with that title. *)
Theorem create_accepts_empty_title :
  ∃ p' w',
    post_posts untitled "p3" 500 sample_world = (Ok (RPost 201 p'), w') ∧
    title p' = "" ∧
    JsMap.get "p3" (posts w') = Some p'.
Proof. eexists _, _. vm_compute. done. Qed.

(* ================================================================== *)
(** * The like tracker *)

(** A like trigger for an item of [likedPosts] shows the "already liked"
    toast and does nothing else: no timer, no request. *)
Lemma handleLike_already_liked (postId postTitle : string) (c : Client.State) :
  postId ∈ Client.likedPosts c →
  Client.toasts (Client.handleLike postId postTitle c)
    = (Client.toasts c ++ [Client.ToastAlreadyLiked])%list ∧
  Client.timers (Client.handleLike postId postTitle c) = Client.timers c ∧
  Client.inflight (Client.handleLike postId postTitle c) = Client.inflight c ∧
  Client.requests (Client.handleLike postId postTitle c) = Client.requests c ∧
  Client.likedPosts (Client.handleLike postId postTitle c) = Client.likedPosts c.
Proof.
  intros Hin. unfold Client.handleLike.
  by rewrite bool_decide_eq_true_2.
Qed.

(** A like trigger for the item [isLiking] points at does nothing. *)
Lemma handleLike_marked (postId postTitle : string) (c : Client.State) :
  postId ∉ Client.likedPosts c →
  Client.isLiking c = Some postId →
  Client.handleLike postId postTitle c = c.
Proof.
  intros Hout Hmark. unfold Client.handleLike.
  rewrite bool_decide_eq_false_2 by done.
  by rewrite bool_decide_eq_true_2.
Qed.

(** C9 at the input where it fails: with the request for [A] sent and not
    yet answered, a like of [B] moves the marker, and the next like trigger
    for [A] sends a second request for [A]. *)
Theorem second_like_request_while_outstanding :
  let c1 := Client.run [Client.Click "A" "a"; Client.TimerFires;
                        Client.Click "B" "b"] Client.init in
  let c2 := Client.run [Client.Click "A" "a"; Client.TimerFires;
                        Client.TimerFires] c1 in
  Client.inflight c1 = ["A"] ∧
  Client.isLiking c1 = Some "B" ∧
  Client.requests c2 = ["A"; "B"; "A"] ∧
  Client.inflight c2 = ["A"; "B"; "A"].
Proof. vm_compute. done. Qed.

(* ================================================================== *)
(** * More on the content store *)

Lemma incrementViews_run (id : string) (now : Z) (w : World) :
  incrementViews id now w =
    match JsMap.get id (posts w) with
    | None => (Ok tt, w)
    | Some post =>
        (Ok tt,
         set_posts
           (JsMap.set id
              (mkPost (pid post) (title post) (content post) (author post)
                      (category post) (imageUrl post) (imageFileName post)
                      (views post + 1) (likes post) (published post)
                      (createdAt post) now)) w)
    end.
Proof.
  unfold incrementViews, bind, gets. simpl.
  by destruct (JsMap.get id (posts w)).
Qed.

Lemma createPost_run (id : string) (now : Z) (ins : InsertPost) (w : World) :
  createPost id now ins w =
    (Ok (mkPost id (ins_title ins) (ins_content ins) (ins_author ins)
                (ins_category ins) (ins_imageUrl ins) (ins_imageFileName ins)
                0 0 (nullish (ins_published ins) true) now now),
     set_posts
       (JsMap.set id
          (mkPost id (ins_title ins) (ins_content ins) (ins_author ins)
                  (ins_category ins) (ins_imageUrl ins) (ins_imageFileName ins)
                  0 0 (nullish (ins_published ins) true) now now)) w).
Proof. reflexivity. Qed.

Lemma set_fresh (k : string) (v : Post) (m : JsMap.t) :
  JsMap.get k m = None → JsMap.set k v m = (m ++ [(k, v)])%list.
Proof.
  induction m as [|[k' v'] m IH]; simpl; [done|].
  destruct (String.eqb k' k); [done|]. intros H. by rewrite IH.
Qed.

(** X1. [incrementViews] on an item of the store raises its view counter by
    one per call: after any run made of views of [id] and of operations on
    other items, the counter has grown by the number of views of [id], and
    the like counter is as it was. *)
Theorem view_counts_every_call (id : string) (ops : list Op) :
  ∀ (w : World) (post : Post),
    JsMap.get id (posts w) = Some post →
    Forall (fun o => is_view_of id o = true ∨ op_target o ≠ id) ops →
    ∃ post', JsMap.get id (posts (run_ops ops w)) = Some post' ∧
             views post' = views post + Z.of_nat (view_count id ops) ∧
             likes post' = likes post.
Proof.
  induction ops as [|o ops IH]; intros w post Hget Hops.
  - exists post. split; [done|]. change (view_count id []) with 0%nat.
    split; [lia|done].
  - apply Forall_cons in Hops as [Ho Hops]. simpl.
    unfold view_count. rewrite filter_cons.
    destruct (is_view_of id o) eqn:Hview.
    + destruct o as [| | |i now|]; try discriminate.
      simpl in Hview. apply String.eqb_eq in Hview as ->.
      rewrite decide_True by done.
      assert (∃ q, JsMap.get id (posts (snd (run_op (OpView id now) w))) = Some q
                   ∧ views q = views post + 1 ∧ likes q = likes post)
        as (q & Hq & Hq1 & Hq2).
      { simpl. rewrite incrementViews_run, Hget. simpl.
        eexists. split; [apply get_set_eq|done]. }
      destruct (IH _ _ Hq Hops) as (post' & Hget' & Hviews & Hlikes).
      exists post'. split; [done|]. rewrite Hviews, Hlikes, Hq1, Hq2. simpl.
      unfold view_count. split; [lia|done].
    + destruct Ho as [?|Hne]; [done|].
      rewrite decide_False by done.
      assert (JsMap.get id (posts (snd (run_op o w))) = Some post) as Hq
        by (by rewrite run_op_other).
      exact (IH _ _ Hq Hops).
Qed.

Lemma view_counts_every_call_witness :
  ∃ post',
    JsMap.get "p2"
      (posts (run_ops [OpView "p2" 300; OpLike "p1" 310; OpView "p2" 320;
                       OpDelete "p1"] sample_world)) = Some post' ∧
    views post' =
      views plain_post
      + Z.of_nat (view_count "p2" [OpView "p2" 300; OpLike "p1" 310;
                                   OpView "p2" 320; OpDelete "p1"]) ∧
    likes post' = likes plain_post.
Proof.
  apply (view_counts_every_call "p2"); [reflexivity|].
  repeat (constructor; [first [by left | by right]|]). constructor.
Defined.

(** What one operation that does not create [id] does to the item [id]. *)
Lemma run_op_keeps (id : string) (o : Op) (w : World) (post : Post) :
  creates id o = false →
  JsMap.get id (posts w) = Some post →
  match JsMap.get id (posts (snd (run_op o w))) with
  | Some post' =>
      likes post ≤ likes post' ∧ views post ≤ views post' ∧
      createdAt post' = createdAt post ∧ pid post' = pid post
  | None => True
  end.
Proof.
  intros Hcreate Hget.
  destruct (decide (op_target o = id)) as [Htarget|Hne].
  - destruct o as [i now ins|i now upd|i|i now|i now]; simpl in Htarget; subst i.
    + simpl in Hcreate. by rewrite String.eqb_refl in Hcreate.
    + simpl. unfold bind. rewrite updatePost_run, Hget. simpl.
      rewrite get_set_eq. simpl. split_and!; (done || lia).
    + simpl. unfold bind. rewrite deletePost_run, Hget. simpl.
      by rewrite get_delete_eq.
    + simpl. rewrite incrementViews_run, Hget. simpl.
      rewrite get_set_eq. simpl. split_and!; (done || lia).
    + simpl. unfold bind. rewrite toggleLike_run, Hget. simpl.
      rewrite get_set_eq. simpl. split_and!; (done || lia).
  - rewrite run_op_other, Hget by done. split_and!; (done || lia).
Qed.

Lemma run_op_stays_absent (id : string) (o : Op) (w : World) :
  creates id o = false →
  JsMap.get id (posts w) = None →
  JsMap.get id (posts (snd (run_op o w))) = None.
Proof.
  intros Hcreate Hget.
  destruct (decide (op_target o = id)) as [Htarget|Hne].
  - destruct o as [i now ins|i now upd|i|i now|i now]; simpl in Htarget; subst i.
    + simpl in Hcreate. by rewrite String.eqb_refl in Hcreate.
    + simpl. unfold bind. by rewrite updatePost_run, Hget.
    + simpl. unfold bind. by rewrite deletePost_run, Hget.
    + simpl. by rewrite incrementViews_run, Hget.
    + simpl. unfold bind. by rewrite toggleLike_run, Hget.
  - by rewrite run_op_other.
Qed.

(** X2. As long as no create reuses its id, an item that is still in the
    store after a run of operations has counters at least as large as
    before, and the creation time and id it had. *)
Theorem counters_never_decrease (id : string) (ops : list Op) :
  ∀ (w : World) (post post' : Post),
    Forall (fun o => creates id o = false) ops →
    JsMap.get id (posts w) = Some post →
    JsMap.get id (posts (run_ops ops w)) = Some post' →
    likes post ≤ likes post' ∧ views post ≤ views post' ∧
    createdAt post' = createdAt post ∧ pid post' = pid post.
Proof.
  induction ops as [|o ops IH]; intros w post post' Hops Hget Hget'.
  - simpl in Hget'. rewrite Hget in Hget'. injection Hget' as <-.
    split_and!; (done || lia).
  - apply Forall_cons in Hops as [Ho Hops]. simpl in Hget'.
    pose proof (run_op_keeps id o w post Ho Hget) as Hstep.
    destruct (JsMap.get id (posts (snd (run_op o w)))) as [q|] eqn:Hq.
    + destruct Hstep as (H1 & H2 & H3 & H4).
      destruct (IH _ _ _ Hops Hq Hget') as (H1' & H2' & H3' & H4').
      split_and!; [lia | lia | congruence | congruence].
    + exfalso.
      assert (JsMap.get id (posts (run_ops ops (snd (run_op o w)))) = None) as Hnone.
      { clear IH Hget' Hstep. revert Hq. generalize (snd (run_op o w)).
        induction ops as [|o' ops IH']; intros w0 Hq; [done|].
        apply Forall_cons in Hops as [Ho' Hops]. simpl.
        apply IH'; [done|]. by apply run_op_stays_absent. }
      congruence.
Qed.

Lemma counters_never_decrease_witness :
  ∃ post',
    JsMap.get "p1" (posts (run_ops sample_ops sample_world)) = Some post' ∧
    likes sample_post ≤ likes post' ∧ views sample_post ≤ views post' ∧
    createdAt post' = createdAt sample_post ∧ pid post' = pid sample_post.
Proof.
  eexists. split; [vm_compute; reflexivity|].
  apply (counters_never_decrease "p1" sample_ops sample_world sample_post).
  - unfold sample_ops. repeat (constructor; [reflexivity|]). constructor.
  - reflexivity.
  - vm_compute. reflexivity.
Defined.

Lemma keyed_get (m : JsMap.t) (k : string) (v : Post) :
  keyed_by_id m → JsMap.get k m = Some v → pid v = k.
Proof.
  intros Hm Hget%get_Some_entry.
  by apply (proj1 (Forall_forall _ _) Hm) in Hget.
Qed.

Lemma keyed_set (m : JsMap.t) (k : string) (v : Post) :
  pid v = k → keyed_by_id m → keyed_by_id (JsMap.set k v m).
Proof.
  intros Hv. unfold keyed_by_id.
  induction m as [|[k' v'] m IH]; simpl; intros Hm.
  - by constructor.
  - apply Forall_cons in Hm as [Hv' Hm].
    destruct (String.eqb k' k); constructor; auto.
Qed.

Lemma keyed_delete (m : JsMap.t) (k : string) :
  keyed_by_id m → keyed_by_id (JsMap.delete k m).
Proof.
  unfold keyed_by_id, JsMap.delete. rewrite !Forall_forall.
  intros Hm x [_ Hx]%list_elem_of_filter. auto.
Qed.

Lemma run_op_keyed (o : Op) (w : World) :
  keyed_by_id (posts w) → keyed_by_id (posts (snd (run_op o w))).
Proof.
  intros Hw. destruct o as [i now ins|i now upd|i|i now|i now]; simpl.
  - by apply keyed_set.
  - unfold bind. rewrite updatePost_run.
    destruct (JsMap.get i (posts w)) as [q|] eqn:Hq; simpl; [|done].
    apply keyed_set; [|done]. simpl. by eapply keyed_get.
  - unfold bind. rewrite deletePost_run.
    destruct (JsMap.get i (posts w)) as [q|]; simpl; [|done].
    apply keyed_delete. by rewrite when_truthy_deleteImage_posts.
  - rewrite incrementViews_run.
    destruct (JsMap.get i (posts w)) as [q|] eqn:Hq; simpl; [|done].
    apply keyed_set; [|done]. simpl. by eapply keyed_get.
  - unfold bind. rewrite toggleLike_run.
    destruct (JsMap.get i (posts w)) as [q|] eqn:Hq; simpl; [|done].
    apply keyed_set; [|done]. simpl. by eapply keyed_get.
Qed.

(** X3. From the empty store, after any run of operations, every item is
    stored under the id it carries: what [getPost] finds under an id has
    that id, and so has every entry [getPosts] lists. *)
Theorem stored_under_own_id (ops : list Op) (w : World) :
  posts w = JsMap.empty →
  keyed_by_id (posts (run_ops ops w)) ∧
  ∀ id post, JsMap.get id (posts (run_ops ops w)) = Some post → pid post = id.
Proof.
  intros Hempty.
  assert (keyed_by_id (posts (run_ops ops w))) as Hkeyed.
  { assert (keyed_by_id (posts w)) as Hw by (rewrite Hempty; constructor).
    clear Hempty. revert w Hw.
    induction ops as [|o ops IH]; intros w Hw; [done|].
    simpl. apply IH. by apply run_op_keyed. }
  split; [done|]. intros id post. by apply keyed_get.
Qed.

Lemma stored_under_own_id_witness :
  keyed_by_id (posts (run_ops paired_ops empty_world)) ∧
  ∀ id post, JsMap.get id (posts (run_ops paired_ops empty_world)) = Some post →
             pid post = id.
Proof. apply (stored_under_own_id paired_ops empty_world). reflexivity. Defined.

(** X4. On an id that is not in the store, [updatePost] answers
    [undefined], [deletePost] answers [false], [incrementViews] returns
    silently and [getPost] answers [undefined]; none of them throws or
    changes anything (no file is touched, nothing is logged). *)
Theorem absent_id_changes_nothing
    (id : string) (now : Z) (upd : PartialInsertPost) (w : World) :
  JsMap.get id (posts w) = None →
  updatePost id now upd w = (Ok None, w) ∧
  deletePost id w = (Ok false, w) ∧
  incrementViews id now w = (Ok tt, w) ∧
  getPost id w = (Ok None, w).
Proof.
  intros Hget. split_and!.
  - by rewrite updatePost_run, Hget.
  - by rewrite deletePost_run, Hget.
  - by rewrite incrementViews_run, Hget.
  - unfold getPost, bind, gets, ret. by rewrite Hget.
Qed.

Lemma absent_id_changes_nothing_witness :
  updatePost "p9" 400 (mkPartial (Some "Z") None None None None None None)
             sample_world = (Ok None, sample_world) ∧
  deletePost "p9" sample_world = (Ok false, sample_world) ∧
  incrementViews "p9" 400 sample_world = (Ok tt, sample_world) ∧
  getPost "p9" sample_world = (Ok None, sample_world).
Proof. apply (absent_id_changes_nothing "p9"). reflexivity. Defined.

(** X5. [createPost] under a fresh id appends one item to the store and
    changes nothing else: the item has the generated id, zero counters,
    [published] defaulting to [true], both timestamps at the time of the
    call; it is what [getPost] then finds, and the last of the map's values. *)
Theorem create_then_get
    (id : string) (now : Z) (ins : InsertPost) (w : World) :
  JsMap.get id (posts w) = None →
  ∃ post w',
    createPost id now ins w = (Ok post, w') ∧
    pid post = id ∧ views post = 0 ∧ likes post = 0 ∧
    published post = nullish (ins_published ins) true ∧
    createdAt post = now ∧ updatedAt post = now ∧
    title post = ins_title ins ∧ content post = ins_content ins ∧
    author post = ins_author ins ∧
    getPost id w' = (Ok (Some post), w') ∧
    JsMap.values (posts w') = (JsMap.values (posts w) ++ [post])%list ∧
    files w' = files w ∧ log w' = log w ∧
    ∀ id', id' ≠ id → JsMap.get id' (posts w') = JsMap.get id' (posts w).
Proof.
  intros Hfresh. eexists _, _. split; [apply createPost_run|].
  split_and!; try reflexivity.
  - unfold getPost, bind, gets, ret. simpl. by rewrite get_set_eq.
  - simpl. rewrite set_fresh by done. unfold JsMap.values.
    by rewrite map_app.
  - intros id' Hne. simpl. by apply get_set_ne.
Qed.

Lemma create_then_get_witness :
  ∃ post w',
    createPost "p3" 500 lone_locator sample_world = (Ok post, w') ∧
    pid post = "p3" ∧ views post = 0 ∧ likes post = 0 ∧
    published post = nullish (ins_published lone_locator) true ∧
    createdAt post = 500 ∧ updatedAt post = 500 ∧
    title post = ins_title lone_locator ∧
    content post = ins_content lone_locator ∧
    author post = ins_author lone_locator ∧
    getPost "p3" w' = (Ok (Some post), w') ∧
    JsMap.values (posts w') = (JsMap.values (posts sample_world) ++ [post])%list ∧
    files w' = files sample_world ∧ log w' = log sample_world ∧
    ∀ id', id' ≠ "p3" →
           JsMap.get id' (posts w') = JsMap.get id' (posts sample_world).
Proof.
  apply (create_then_get "p3" 500 lone_locator sample_world). reflexivity.
Defined.

(** X6. Deleting an item that has no image (its storage name is [null] or
    empty) touches no file and logs nothing: only the entry goes. *)
Theorem delete_without_asset_touches_no_file
    (id : string) (post : Post) (w : World) :
  JsMap.get id (posts w) = Some post →
  truthy (imageFileName post) = false →
  deletePost id w = (Ok true, set_posts (JsMap.delete id) w).
Proof.
  intros Hget Hfalsy. rewrite deletePost_run, Hget.
  destruct (imageFileName post) as [name|]; simpl in *; [|done].
  by rewrite Hfalsy.
Qed.

Lemma delete_without_asset_touches_no_file_witness :
  deletePost "p2" sample_world
    = (Ok true, set_posts (JsMap.delete "p2") sample_world).
Proof.
  apply (delete_without_asset_touches_no_file "p2" plain_post sample_world);
    reflexivity.
Defined.

(** X7. Deleting an item whose image is on disk, under a name the file
    system does not refuse, removes exactly that file: the other files are
    kept, the one unlink is the only thing logged, and the other items are
    untouched. *)
Theorem delete_removes_its_file_only
    (id name : string) (post : Post) (w : World) :
  JsMap.get id (posts w) = Some post →
  imageFileName post = Some name →
  name ≠ "" →
  name ∈ files w →
  name ∉ faulty w →
  ∃ w', deletePost id w = (Ok true, w') ∧
        files w' = files w ∖ {[name]} ∧
        log w' = (log w ++ [EvUnlink name true])%list ∧
        ∀ id', id' ≠ id → JsMap.get id' (posts w') = JsMap.get id' (posts w).
Proof.
  intros Hget Hname Hne Hin Hok.
  rewrite deletePost_run, Hget, Hname.
  destruct (when_truthy_run (Some name) deleteImage w (truthy_Some _ Hne))
    as (n & [= <-] & _ & ->).
  rewrite deleteImage_run.
  assert (can_unlink name w = true) as ->.
  { unfold can_unlink. rewrite bool_decide_eq_true_2 by done.
    by rewrite bool_decide_eq_false_2. }
  eexists. split; [reflexivity|]. split_and!; try reflexivity.
  intros id' Hne'. simpl. by apply get_delete_ne.
Qed.

Lemma delete_removes_its_file_only_witness :
  ∃ w', deletePost "p1" sample_world = (Ok true, w') ∧
        files w' = files sample_world ∖ {["old.png"]} ∧
        log w' = (log sample_world ++ [EvUnlink "old.png" true])%list ∧
        ∀ id', id' ≠ "p1" →
               JsMap.get id' (posts w') = JsMap.get id' (posts sample_world).
Proof.
  apply (delete_removes_its_file_only "p1" "old.png" sample_post sample_world);
    [reflexivity | reflexivity | discriminate | |];
    apply (bool_decide_unpack _); vm_compute; exact I.
Defined.

(** X8. Saving and deleting an image: when the file system accepts the
    name, [saveImage] puts the file on disk and answers its locator
    [/uploads/<name>]; [deleteImage] then takes the file away again without
    logging a failure.  On a name that is not on disk [deleteImage] throws
    nothing, keeps the files and logs that it could not delete. *)
Theorem save_then_delete_image (name : string) (w : World) :
  name ∉ faulty w →
  ∃ w1 w2,
    saveImage name w = (Ok (String.append "/uploads/" name), w1) ∧
    name ∈ files w1 ∧
    deleteImage name w1 = (Ok tt, w2) ∧
    files w2 = files w ∖ {[name]} ∧
    log w2 = (log w ++ [EvWriteFile name true; EvUnlink name true])%list ∧
    posts w2 = posts w.
Proof.
  intros Hok. eexists _, _.
  rewrite saveImage_run, bool_decide_eq_false_2 by done.
  split; [reflexivity|]. split; [simpl; set_solver|].
  rewrite deleteImage_run.
  assert (can_unlink name
            (emit (EvWriteFile name true)
                  (set_files (fun fs => fs ∪ {[name]}) w)) = true) as ->.
  { unfold can_unlink. simpl.
    rewrite bool_decide_eq_true_2 by set_solver.
    by rewrite bool_decide_eq_false_2. }
  split; [reflexivity|]. simpl. split_and!; [set_solver| |done].
  by rewrite <- app_assoc.
Qed.

Lemma save_then_delete_image_witness :
  ∃ w1 w2,
    saveImage "a.png" sample_world = (Ok (String.append "/uploads/" "a.png"), w1) ∧
    "a.png" ∈ files w1 ∧
    deleteImage "a.png" w1 = (Ok tt, w2) ∧
    files w2 = files sample_world ∖ {["a.png"]} ∧
    log w2 = (log sample_world
                ++ [EvWriteFile "a.png" true; EvUnlink "a.png" true])%list ∧
    posts w2 = posts sample_world.
Proof.
  apply (save_then_delete_image "a.png" sample_world).
  apply (bool_decide_unpack _). vm_compute. exact I.
Defined.

(** X9. [deleteImage] on a name that is not on disk throws nothing, keeps
    the files and the posts, and logs that it could not delete. *)
Theorem delete_missing_image_is_swallowed (name : string) (w : World) :
  name ∉ files w →
  deleteImage name w =
    (Ok tt,
     emit (EvConsoleLog (String.append "Could not delete image: " name))
          (emit (EvUnlink name false) w)).
Proof.
  intros Hout. rewrite deleteImage_run.
  assert (can_unlink name w = false) as ->; [|done].
  unfold can_unlink. by rewrite bool_decide_eq_false_2.
Qed.

Lemma delete_missing_image_is_swallowed_witness :
  deleteImage "gone.png" sample_world =
    (Ok tt,
     emit (EvConsoleLog (String.append "Could not delete image: " "gone.png"))
          (emit (EvUnlink "gone.png" false) sample_world)).
Proof.
  apply (delete_missing_image_is_swallowed "gone.png" sample_world).
  apply (bool_decide_unpack _). vm_compute. exact I.
Defined.

(** The sort moves no item past another created at the same time. *)
Lemma js_insert_created_at (t : Z) (x : Post) (l : list Post) :
  created_at t (js_insert byCreatedDesc x l) = created_at t (x :: l).
Proof.
  unfold created_at.
  induction l as [|y l IH]; simpl; [done|].
  unfold byCreatedDesc at 1.
  destruct (Z.leb_spec (createdAt y - createdAt x) 0) as [Hle|Hgt]; [done|].
  rewrite (filter_cons _ y), IH, !filter_cons.
  destruct (decide (createdAt y = t)), (decide (createdAt x = t));
    try done; lia.
Qed.

(** X10. Items created at the same time come out of [getPosts] in the order
    in which the map holds them (its insertion order): the sort is stable. *)
Theorem list_keeps_insertion_order_on_ties (t : Z) (w : World) :
  ∃ l, getPosts w = (Ok l, w) ∧
       created_at t l = created_at t (JsMap.values (posts w)).
Proof.
  eexists. split; [reflexivity|].
  induction (JsMap.values (posts w)) as [|x l IH]; [done|].
  simpl. rewrite js_insert_created_at.
  unfold created_at in *. by rewrite !filter_cons, IH.
Qed.

Lemma reduce_sum_foldr (f : Post → Z) (l : list Post) :
  ∀ a, foldl (fun sum post => sum + f post) a l
       = a + foldr (fun post sum => f post + sum) 0 l.
Proof.
  induction l as [|x l IH]; intros a; simpl; [lia|]. rewrite IH. lia.
Qed.

Lemma reduce_sum_cons (f : Post → Z) (x : Post) (l : list Post) :
  reduce_sum f (x :: l) = f x + reduce_sum f l.
Proof.
  unfold reduce_sum. simpl. rewrite !reduce_sum_foldr. lia.
Qed.

Lemma reduce_sum_perm (f : Post → Z) (l l' : list Post) :
  l ≡ₚ l' → reduce_sum f l = reduce_sum f l'.
Proof.
  induction 1 as [|x l l' _ IH|x y l|l1 l2 l3 _ IH1 _ IH2].
  - done.
  - by rewrite !reduce_sum_cons, IH.
  - rewrite !reduce_sum_cons. lia.
  - congruence.
Qed.

Lemma reduce_sum_set (f : Post → Z) (k : string) (v v' : Post) (m : JsMap.t) :
  JsMap.get k m = Some v →
  reduce_sum f (JsMap.values (JsMap.set k v' m))
    = reduce_sum f (JsMap.values m) - f v + f v'.
Proof.
  unfold JsMap.values.
  induction m as [|[k0 v0] m IH]; simpl; [done|].
  destruct (String.eqb k0 k).
  - intros [= ->]. simpl. rewrite !reduce_sum_cons. lia.
  - intros Hget. simpl. rewrite !reduce_sum_cons, IH by done. lia.
Qed.

Lemma length_set_present (k : string) (v v' : Post) (m : JsMap.t) :
  JsMap.get k m = Some v → length (JsMap.set k v' m) = length m.
Proof.
  induction m as [|[k0 v0] m IH]; simpl; [done|].
  destruct (String.eqb k0 k); simpl; [done|]. intros H. by rewrite IH.
Qed.

(** X11. [GET /api/stats] never fails and changes nothing; it answers the
    number of items of the store and the sums of their view and like
    counters, whatever the order in which the items are listed. *)
Theorem stats_are_sums_over_the_store (w : World) :
  get_stats w =
    (Ok (RStats {| totalPosts := Z.of_nat (length (posts w));
                   totalViews := reduce_sum views (JsMap.values (posts w));
                   totalLikes := reduce_sum likes (JsMap.values (posts w)) |}),
     w).
Proof.
  unfold get_stats, try_catch.
  rewrite (bind_ok _ _ w w (js_sort byCreatedDesc (JsMap.values (posts w))))
    by reflexivity.
  unfold ret.
  rewrite (Permutation_length (js_sort_perm byCreatedDesc _)).
  rewrite !(reduce_sum_perm _ _ _ (js_sort_perm byCreatedDesc _)).
  unfold JsMap.values. by rewrite length_map.
Qed.

Lemma broadcastUpdate_log (type : string) (data : Payload) (w : World) :
  NoDup (sseConnections w) →
  ∃ w', broadcastUpdate type data w = (Ok tt, w') ∧
        posts w' = posts w ∧ files w' = files w ∧ dead w' = dead w ∧
        sseConnections w' = filter (fun c => c ∉ dead w) (sseConnections w) ∧
        log w' =
          (log w ++ EvStringify (mkMessage type data)
                 :: map (fun c => EvResWrite c (mkMessage type data)
                                             (bool_decide (c ∉ dead w)))
                        (sseConnections w))%list.
Proof.
  intros Hnd. eexists. split; [by apply broadcastUpdate_run|]. done.
Qed.

(** X12. [POST /api/posts/:id/like] on an item of the store answers the item
    with its like counter raised by one, stores it, and publishes exactly
    that item as [post_liked], once to each connection; the totals of
    [/api/stats] move by one like and nothing else. *)
Theorem like_route_publishes_and_counts
    (id : string) (now : Z) (post : Post) (w : World) :
  JsMap.get id (posts w) = Some post →
  NoDup (sseConnections w) →
  ∃ post' w',
    like_posts id now w = (Ok (RPost 200 post'), w') ∧
    likes post' = likes post + 1 ∧
    views post' = views post ∧
    JsMap.get id (posts w') = Some post' ∧
    log w' =
      (log w ++ EvStringify (mkMessage "post_liked" (PPost post'))
             :: map (fun c => EvResWrite c (mkMessage "post_liked" (PPost post'))
                                         (bool_decide (c ∉ dead w)))
                    (sseConnections w))%list ∧
    ∃ s s',
      get_stats w = (Ok (RStats s), w) ∧
      get_stats w' = (Ok (RStats s'), w') ∧
      totalLikes s' = totalLikes s + 1 ∧
      totalViews s' = totalViews s ∧
      totalPosts s' = totalPosts s.
Proof.
  intros Hget Hnd. unfold like_posts, try_catch.
  pose (post' := mkPost (pid post) (title post) (content post) (author post)
                        (category post) (imageUrl post) (imageFileName post)
                        (views post) (likes post + 1) (published post)
                        (createdAt post) now).
  assert (toggleLike id now w
          = (Ok (Some post'), set_posts (JsMap.set id post') w)) as Hlike
    by (by rewrite toggleLike_run, Hget).
  rewrite (bind_ok _ _ _ _ _ Hlike).
  destruct (broadcastUpdate_log "post_liked" (PPost post')
              (set_posts (JsMap.set id post') w) Hnd)
    as (w' & Hb & Hp & _ & _ & _ & Hlog).
  rewrite (bind_ok _ _ _ _ _ Hb). unfold ret.
  exists post', w'. split_and!; try done.
  - rewrite Hp. simpl. apply get_set_eq.
  - eexists _, _. split; [apply stats_are_sums_over_the_store|].
    split; [apply stats_are_sums_over_the_store|].
    rewrite Hp. simpl.
    rewrite !(reduce_sum_set _ _ _ _ _ Hget).
    rewrite (length_set_present _ _ _ _ Hget). simpl.
    split_and!; [lia | lia | done].
Qed.

Lemma like_route_publishes_and_counts_witness :
  ∃ post' w',
    like_posts "p1" 400 sample_world = (Ok (RPost 200 post'), w') ∧
    likes post' = likes sample_post + 1 ∧
    views post' = views sample_post ∧
    JsMap.get "p1" (posts w') = Some post' ∧
    log w' =
      (log sample_world ++ EvStringify (mkMessage "post_liked" (PPost post'))
             :: map (fun c => EvResWrite c (mkMessage "post_liked" (PPost post'))
                                         (bool_decide (c ∉ dead sample_world)))
                    (sseConnections sample_world))%list ∧
    ∃ s s',
      get_stats sample_world = (Ok (RStats s), sample_world) ∧
      get_stats w' = (Ok (RStats s'), w') ∧
      totalLikes s' = totalLikes s + 1 ∧
      totalViews s' = totalViews s ∧
      totalPosts s' = totalPosts s.
Proof.
  apply (like_route_publishes_and_counts "p1" 400 sample_post sample_world);
    [reflexivity|].
  apply (bool_decide_unpack _). vm_compute. exact I.
Defined.

(** X13. [POST /api/posts/:id/view] always answers 200 "View count updated",
    also for an id the store does not hold, and publishes nothing: the log,
    the connections and the files are as before. *)
Theorem view_route_never_publishes (id : string) (now : Z) (w : World) :
  ∃ w', view_posts id now w = (Ok (RMessage 200 "View count updated"), w') ∧
        log w' = log w ∧
        sseConnections w' = sseConnections w ∧
        files w' = files w ∧
        (JsMap.get id (posts w) = None → w' = w).
Proof.
  unfold view_posts, try_catch.
  pose proof (incrementViews_run id now w) as Hrun.
  destruct (JsMap.get id (posts w));
    rewrite (bind_ok _ _ _ _ _ Hrun);
    eexists; (split; [reflexivity|]); done.
Qed.

Lemma view_route_never_publishes_witness :
  snd (view_posts "p9" 400 sample_world) = sample_world.
Proof.
  destruct (view_route_never_publishes "p9" 400 sample_world)
    as (w' & Hrun & _ & _ & _ & Hsame).
  rewrite Hrun. simpl. apply Hsame. reflexivity.
Defined.

(** X14. For an id the store does not hold, the handlers of get, update,
    delete and like answer 404 "Post not found" and leave everything as it
    was: nothing is published and, for an update that uploads a file, no
    file is written or unlinked. *)
Theorem missing_id_is_not_found (req : Request) (now : Z) (w : World) :
  JsMap.get (params_id req) (posts w) = None →
  get_posts_id (params_id req) w = (Ok (RMessage 404 "Post not found"), w) ∧
  put_posts req now w = (Ok (RMessage 404 "Post not found"), w) ∧
  delete_posts (params_id req) w = (Ok (RMessage 404 "Post not found"), w) ∧
  like_posts (params_id req) now w = (Ok (RMessage 404 "Post not found"), w).
Proof.
  intros Hget.
  assert (getPost (params_id req) w = (Ok None, w)) as Hg
    by (unfold getPost, bind, gets, ret; by rewrite Hget).
  split_and!.
  - unfold get_posts_id, try_catch. by rewrite (bind_ok _ _ _ _ _ Hg).
  - unfold put_posts, try_catch. by rewrite (bind_ok _ _ _ _ _ Hg).
  - unfold delete_posts, try_catch.
    rewrite (bind_ok _ _ w w false); [done|].
    by rewrite deletePost_run, Hget.
  - unfold like_posts, try_catch.
    rewrite (bind_ok _ _ w w None); [done|].
    by rewrite toggleLike_run, Hget.
Qed.

Lemma missing_id_is_not_found_witness :
  get_posts_id "p9" sample_world = (Ok (RMessage 404 "Post not found"), sample_world) ∧
  put_posts (mkRequest "p9" ∅ (Some (mkUpload "a.png" "a.png"))) 400 sample_world
    = (Ok (RMessage 404 "Post not found"), sample_world) ∧
  delete_posts "p9" sample_world = (Ok (RMessage 404 "Post not found"), sample_world) ∧
  like_posts "p9" 400 sample_world = (Ok (RMessage 404 "Post not found"), sample_world).
Proof.
  apply (missing_id_is_not_found
           (mkRequest "p9" ∅ (Some (mkUpload "a.png" "a.png"))) 400 sample_world).
  reflexivity.
Defined.

Lemma when_truthy_deleteImage_hub (o : option string) (w : World) :
  ∃ w1, when_truthy o deleteImage w = (Ok tt, w1) ∧
        posts w1 = posts w ∧ dead w1 = dead w ∧
        sseConnections w1 = sseConnections w.
Proof.
  destruct o as [s|]; simpl; [|by exists w].
  destruct (negb _); [|by exists w].
  rewrite deleteImage_run. eexists. split; [reflexivity|].
  by destruct (can_unlink s w).
Qed.

(** X15. [DELETE /api/posts/:id] on an item of the store answers 200, takes
    the item out of the store, and then publishes [post_deleted] with the id
    alone as payload, once to each connection, after whatever the release
    of the image logged. *)
Theorem delete_route_publishes_id (id : string) (post : Post) (w : World) :
  JsMap.get id (posts w) = Some post →
  NoDup (sseConnections w) →
  ∃ w1 w',
    when_truthy (imageFileName post) deleteImage w = (Ok tt, w1) ∧
    delete_posts id w = (Ok (RMessage 200 "Post deleted successfully"), w') ∧
    JsMap.get id (posts w') = None ∧
    log w' =
      (log w1 ++ EvStringify (mkMessage "post_deleted" (PId id))
              :: map (fun c => EvResWrite c (mkMessage "post_deleted" (PId id))
                                          (bool_decide (c ∉ dead w)))
                     (sseConnections w))%list.
Proof.
  intros Hget Hnd.
  destruct (when_truthy_deleteImage_hub (imageFileName post) w)
    as (w1 & Hdel & Hp1 & Hd1 & Hc1).
  assert (deletePost id w = (Ok true, set_posts (JsMap.delete id) w1)) as Hrun
    by (by rewrite deletePost_run, Hget, Hdel).
  assert (NoDup (sseConnections (set_posts (JsMap.delete id) w1))) as Hnd1
    by (simpl; by rewrite Hc1).
  destruct (broadcastUpdate_log "post_deleted" (PId id) _ Hnd1)
    as (w' & Hb & Hp & _ & _ & _ & Hlog).
  exists w1, w'. split; [done|].
  unfold delete_posts, try_catch.
  rewrite (bind_ok _ _ _ _ _ Hrun). simpl.
  rewrite (bind_ok _ _ _ _ _ Hb). unfold ret.
  split_and!; [done| |].
  - rewrite Hp. simpl. apply get_delete_eq.
  - rewrite Hlog. simpl. by rewrite Hd1, Hc1.
Qed.

Lemma delete_route_publishes_id_witness :
  ∃ w1 w',
    when_truthy (imageFileName sample_post) deleteImage sample_world = (Ok tt, w1) ∧
    delete_posts "p1" sample_world
      = (Ok (RMessage 200 "Post deleted successfully"), w') ∧
    JsMap.get "p1" (posts w') = None ∧
    log w' =
      (log w1 ++ EvStringify (mkMessage "post_deleted" (PId "p1"))
              :: map (fun c => EvResWrite c (mkMessage "post_deleted" (PId "p1"))
                                          (bool_decide (c ∉ dead sample_world)))
                     (sseConnections sample_world))%list.
Proof.
  apply (delete_route_publishes_id "p1" sample_post sample_world);
    [reflexivity|].
  apply (bool_decide_unpack _). vm_compute. exact I.
Defined.

(** What [insertPostSchema] makes of the two image keys the create handler
    sets. *)
Lemma insert_image_keys (data : gmap string jsval) (v : InsertPost)
    (url fname : option string) :
  insertPostSchema data = Some v →
  data !! "imageUrl" = Some (js_null_or url) →
  data !! "imageFileName" = Some (js_null_or fname) →
  ins_imageUrl v = url ∧ ins_imageFileName v = fname.
Proof.
  unfold insertPostSchema. intros H Hurl Hfname.
  rewrite Hurl, Hfname in H.
  destruct (z_string (data !! "title")); simpl in H; [|done].
  destruct (z_string (data !! "content")); simpl in H; [|done].
  destruct (z_string_min1 (data !! "author")); simpl in H; [|done].
  destruct (z_optional z_string (data !! "category")); simpl in H; [|done].
  destruct url, fname; simpl in H;
    destruct (z_optional z_boolean (data !! "published")); simpl in H;
    try done; by injection H as <-.
Qed.

(** X16. An item created through [POST /api/posts] (answer 201) has the
    generated id, zero counters and the time of the call, is what the store
    holds under that id, and has its two asset parts together whatever the
    body said: both [null] without a file, and with a file the stored name
    and its locator [/uploads/<name>], the file being on disk. *)
Theorem created_item_is_paired
    (req : Request) (id : string) (now : Z) (w : World)
    (st : Z) (post : Post) (w' : World) :
  post_posts req id now w = (Ok (RPost st post), w') →
  st = 201 ∧ pid post = id ∧ views post = 0 ∧ likes post = 0 ∧
  createdAt post = now ∧
  JsMap.get id (posts w') = Some post ∧
  asset_paired post ∧
  match file req with
  | None =>
      imageUrl post = None ∧ imageFileName post = None ∧ files w' = files w
  | Some up =>
      imageUrl post = Some (String.append "/uploads/" (storedName up)) ∧
      imageFileName post = Some (storedName up) ∧
      storedName up ∈ files w'
  end.
Proof.
  unfold post_posts, try_catch.
  destruct (file req) as [up|] eqn:Hfile.
  - unfold bind at 1. unfold bind at 1. rewrite saveImage_run.
    destruct (bool_decide (storedName up ∈ faulty w)); [done|].
    unfold ret at 1. cbv zeta. simpl fst. simpl snd.
    set (w1 := emit _ _). set (data := convert_published _).
    unfold bind at 1. unfold parse at 1.
    destruct (insertPostSchema data) as [v|] eqn:Hparse; [|done].
    unfold ret at 1. unfold bind at 1. rewrite createPost_run.
    set (created := mkPost _ _ _ _ _ _ _ _ _ _ _ _).
    destruct (broadcastUpdate_frame "post_created" (PPost created)
                (set_posts (JsMap.set id created) w1))
      as (w3 & Hb & Hp & Hf).
    rewrite (bind_ok _ _ _ _ _ Hb). unfold ret. intros [= <- <- <-].
    destruct (insert_image_keys data v
                (Some (String.append "/uploads/" (storedName up)))
                (Some (storedName up)) Hparse) as [Hurl Hfname].
    { subst data. rewrite convert_published_other by done.
      rewrite lookup_insert_ne by done. by rewrite lookup_insert_eq. }
    { subst data. rewrite convert_published_other by done.
      by rewrite lookup_insert_eq. }
    split_and!; try done;
      first [ rewrite Hp; simpl; apply get_set_eq
            | unfold asset_paired, paired; subst created; simpl;
              by rewrite Hurl, Hfname
            | rewrite Hf; subst w1; simpl; set_solver ].
  - unfold bind at 1. unfold ret at 1. cbv zeta. simpl fst. simpl snd.
    set (data := convert_published _).
    unfold bind at 1. unfold parse at 1.
    destruct (insertPostSchema data) as [v|] eqn:Hparse; [|done].
    unfold ret at 1. unfold bind at 1. rewrite createPost_run.
    set (created := mkPost _ _ _ _ _ _ _ _ _ _ _ _).
    destruct (broadcastUpdate_frame "post_created" (PPost created)
                (set_posts (JsMap.set id created) w))
      as (w3 & Hb & Hp & Hf).
    rewrite (bind_ok _ _ _ _ _ Hb). unfold ret. intros [= <- <- <-].
    destruct (insert_image_keys data v None None Hparse) as [Hurl Hfname].
    { subst data. rewrite convert_published_other by done.
      rewrite lookup_insert_ne by done. by rewrite lookup_insert_eq. }
    { subst data. rewrite convert_published_other by done.
      by rewrite lookup_insert_eq. }
    split_and!; try done;
      first [ rewrite Hp; simpl; apply get_set_eq
            | unfold asset_paired, paired; subst created; simpl;
              by rewrite Hurl, Hfname ].
Qed.

Lemma created_item_is_paired_witness :
  ∃ post w',
    post_posts
      (mkRequest "" {[ "title" := VStr "A"; "content" := VStr "B";
                       "author" := VStr "C";
                       "imageUrl" := VStr "/uploads/x.png" ]} None)
      "p3" 500 sample_world = (Ok (RPost 201 post), w') ∧
    pid post = "p3" ∧ views post = 0 ∧ likes post = 0 ∧
    JsMap.get "p3" (posts w') = Some post ∧
    asset_paired post ∧
    imageUrl post = None ∧ imageFileName post = None.
Proof.
  pose (req := mkRequest "" {[ "title" := VStr "A"; "content" := VStr "B";
                               "author" := VStr "C";
                               "imageUrl" := VStr "/uploads/x.png" ]} None).
  assert (post_posts req "p3" 500 sample_world =
            (Ok (RPost 201
                   (mkPost "p3" "A" "B" "C" None None None 0 0 true 500 500)),
             snd (post_posts req "p3" 500 sample_world))) as Hrun
    by (vm_compute; reflexivity).
  destruct (created_item_is_paired req "p3" 500 sample_world _ _ _ Hrun)
    as (_ & Hid & Hviews & Hlikes & _ & Hstored & Hpaired & Hurl & Hfname & _).
  eexists _, _. split; [exact Hrun|].
  split_and!; [exact Hid | exact Hviews | exact Hlikes | exact Hstored
              | exact Hpaired | exact Hurl | exact Hfname].
Defined.

(** X17. When the write of the uploaded image is rejected, [POST /api/posts]
    answers 500 "Failed to create post": no item is stored, nothing is
    published, and the only trace is the failed write. *)
Theorem create_with_failed_write
    (req : Request) (id : string) (now : Z) (up : Upload) (w : World) :
  file req = Some up →
  storedName up ∈ faulty w →
  post_posts req id now w =
    (Ok (RMessage 500 "Failed to create post"),
     emit (EvWriteFile (storedName up) false) w).
Proof.
  intros Hfile Hfaulty. unfold post_posts, try_catch. rewrite Hfile.
  assert (saveImage (storedName up) w
          = (Throw (FsError (storedName up)),
             emit (EvWriteFile (storedName up) false) w)) as Hsave
    by (by rewrite saveImage_run, bool_decide_eq_true_2).
  rewrite (bind_throw _ _ w _ (FsError (storedName up))
             (bind_throw _ _ _ _ _ Hsave)).
  reflexivity.
Qed.

Lemma create_with_failed_write_witness :
  post_posts (mkRequest "" (body untitled) (Some (mkUpload "new.png" "new.png")))
             "p3" 500 sample_world =
    (Ok (RMessage 500 "Failed to create post"),
     emit (EvWriteFile "new.png" false) sample_world).
Proof.
  apply (create_with_failed_write
           (mkRequest "" (body untitled) (Some (mkUpload "new.png" "new.png")))
           "p3" 500 (mkUpload "new.png" "new.png") sample_world);
    [reflexivity|].
  apply (bool_decide_unpack _). vm_compute. exact I.
Defined.

(** A key present in the data is validated into the update. *)
Lemma partial_takes_present (data : gmap string jsval) (v : PartialInsertPost) :
  insertPostSchema_partial data = Some v →
  (∀ x, data !! "title" = Some x → ∃ s, x = VStr s ∧ upd_title v = Some s) ∧
  (∀ x, data !! "content" = Some x → ∃ s, x = VStr s ∧ upd_content v = Some s) ∧
  (∀ x, data !! "author" = Some x →
        ∃ s, x = VStr s ∧ s ≠ "" ∧ upd_author v = Some s) ∧
  (∀ x, data !! "published" = Some x → ∃ b, x = VBool b ∧ upd_published v = Some b) ∧
  (∀ x, data !! "imageUrl" = Some x →
        ∃ o, x = js_null_or o ∧ upd_imageUrl v = Some o) ∧
  (∀ x, data !! "imageFileName" = Some x →
        ∃ o, x = js_null_or o ∧ upd_imageFileName v = Some o).
Proof.
  unfold insertPostSchema_partial. intros H.
  destruct (z_optional z_string (data !! "title")) as [t|] eqn:Ht;
    simpl in H; [|done].
  destruct (z_optional z_string (data !! "content")) as [c|] eqn:Hc;
    simpl in H; [|done].
  destruct (z_optional z_string_min1 (data !! "author")) as [a|] eqn:Ha;
    simpl in H; [|done].
  destruct (z_optional z_string (data !! "category")) as [cat|] eqn:Hcat;
    simpl in H; [|done].
  destruct (z_optional z_string_nullable (data !! "imageUrl")) as [url|] eqn:Hurl;
    simpl in H; [|done].
  destruct (z_optional z_string_nullable (data !! "imageFileName"))
    as [fname|] eqn:Hfname; simpl in H; [|done].
  destruct (z_optional z_boolean (data !! "published")) as [pub|] eqn:Hpub;
    simpl in H; [|done].
  injection H as <-. simpl.
  split_and!; intros x Hx.
  - rewrite Hx in Ht. destruct x; simpl in Ht; try done.
    injection Ht as <-. by eexists.
  - rewrite Hx in Hc. destruct x; simpl in Hc; try done.
    injection Hc as <-. by eexists.
  - rewrite Hx in Ha. destruct x as [s| | | |]; simpl in Ha; try done.
    destruct (String.eqb s "") eqn:Hs; simpl in Ha; [done|].
    injection Ha as <-. exists s. by apply String.eqb_neq in Hs.
  - rewrite Hx in Hpub. destruct x; simpl in Hpub; try done.
    injection Hpub as <-. by eexists.
  - rewrite Hx in Hurl. destruct x as [s| | | |]; simpl in Hurl; try done.
    + injection Hurl as <-. by exists (Some s).
    + injection Hurl as <-. by exists None.
  - rewrite Hx in Hfname. destruct x as [s| | | |]; simpl in Hfname; try done.
    + injection Hfname as <-. by exists (Some s).
    + injection Hfname as <-. by exists None.
Qed.

Lemma convert_published_present (d : gmap string jsval) (x : jsval) :
  d !! "published" = Some x →
  convert_published d !! "published"
    = Some (VBool (match x with
                   | VStr s => String.eqb s "true"
                   | VBool b => b
                   | _ => false
                   end)).
Proof.
  intros H. unfold convert_published. rewrite H. by rewrite lookup_insert_eq.
Qed.

(** X18. An accepted update applies what the request supplies: a [title],
    [content] or [author] key of the body becomes the field (and is then a
    string, the author a non-empty one); a [published] key makes the flag
    [true] exactly when its value is the string ['true'] or the boolean
    [true], and [false] for any other value. *)
Theorem accepted_update_applies_fields
    (req : Request) (now : Z) (post : Post) (w : World)
    (st : Z) (p' : Post) (w' : World) :
  JsMap.get (params_id req) (posts w) = Some post →
  put_posts req now w = (Ok (RPost st p'), w') →
  (∀ x, body req !! "title" = Some x → x = VStr (title p')) ∧
  (∀ x, body req !! "content" = Some x → x = VStr (content p')) ∧
  (∀ x, body req !! "author" = Some x → x = VStr (author p') ∧ author p' ≠ "") ∧
  (∀ x, body req !! "published" = Some x →
        published p' = match x with
                       | VStr s => String.eqb s "true"
                       | VBool b => b
                       | _ => false
                       end).
Proof.
  intros Hget Hrun.
  destruct (put_posts_accepted _ _ _ _ _ _ _ Hget Hrun)
    as (data & v & Hparse & -> & -> & Hposts & Hkeys & Hnofile).
  destruct (partial_takes_present _ _ Hparse) as (Ht & Hc & Ha & Hpub & _ & _).
  split_and!; intros x Hx.
  - destruct (Ht x) as (s & -> & Hs).
    { by rewrite Hkeys, convert_published_other. }
    simpl. by rewrite Hs.
  - destruct (Hc x) as (s & -> & Hs).
    { by rewrite Hkeys, convert_published_other. }
    simpl. by rewrite Hs.
  - destruct (Ha x) as (s & -> & Hne & Hs).
    { by rewrite Hkeys, convert_published_other. }
    simpl. by rewrite Hs.
  - destruct (Hpub _ (eq_trans (Hkeys "published" ltac:(done) ltac:(done))
                               (convert_published_present _ _ Hx)))
      as (b & [= <-] & Hb).
    simpl. by rewrite Hb.
Qed.

Lemma accepted_update_applies_fields_witness :
  ∃ p' w',
    put_posts (mkRequest "p1" {[ "title" := VStr "Z"; "published" := VStr "on" ]} None)
              400 sample_world = (Ok (RPost 200 p'), w') ∧
    VStr "Z" = VStr (title p') ∧
    published p' = false.
Proof.
  pose (req := mkRequest "p1" {[ "title" := VStr "Z"; "published" := VStr "on" ]} None).
  assert (put_posts req 400 sample_world =
            (Ok (RPost 200
                   (merge sample_post
                          (mkPartial (Some "Z") None None None None None (Some false))
                          400)),
             snd (put_posts req 400 sample_world))) as Hrun
    by (vm_compute; reflexivity).
  destruct (accepted_update_applies_fields req 400 sample_post sample_world _ _ _
              eq_refl Hrun) as (Ht & _ & _ & Hpub).
  eexists _, _. split; [exact Hrun|]. split.
  - apply Ht. reflexivity.
  - apply (Hpub (VStr "on")). reflexivity.
Defined.

(** The hub only ever appends to the log. *)
Lemma forEach_deliver_appends (message : Message) (members : list nat) :
  ∀ w : World,
    ∃ w' new,
      forEach members
        (fun res => try_catch (res_write res message)
                      (fun _ => modify (set_conns (set_delete res)))) w
      = (Ok tt, w') ∧
      posts w' = posts w ∧ files w' = files w ∧
      log w' = (log w ++ new)%list.
Proof.
  induction members as [|c rest IH]; intros w.
  - exists w, []. by rewrite app_nil_r.
  - simpl. rewrite (bind_ok _ _ w w (sseConnections w)) by reflexivity.
    destruct (bool_decide (c ∈ sseConnections w)).
    + rewrite (bind_ok _ _ _ _ _ (deliver_run message c w)).
      destruct (bool_decide (c ∈ dead w)).
      * destruct (IH (set_conns (set_delete c) (emit (EvResWrite c message false) w)))
          as (w' & new & -> & Hp & Hf & Hl).
        exists w', (EvResWrite c message false :: new).
        split_and!; try done. rewrite Hl. simpl. by rewrite <- app_assoc.
      * destruct (IH (emit (EvResWrite c message true) w))
          as (w' & new & -> & Hp & Hf & Hl).
        exists w', (EvResWrite c message true :: new).
        split_and!; try done. rewrite Hl. simpl. by rewrite <- app_assoc.
    + rewrite (bind_ok _ _ w w tt) by reflexivity.
      destruct (IH w) as (w' & new & -> & Hp & Hf & Hl). by exists w', new.
Qed.

Lemma broadcastUpdate_appends (type : string) (data : Payload) (w : World) :
  ∃ w' new, broadcastUpdate type data w = (Ok tt, w') ∧
            posts w' = posts w ∧ files w' = files w ∧
            log w' = (log w ++ EvStringify (mkMessage type data) :: new)%list.
Proof.
  unfold broadcastUpdate.
  set (w1 := emit (EvStringify (mkMessage type data)) w).
  rewrite (bind_ok _ _ w w1 tt) by reflexivity.
  rewrite (bind_ok _ _ w1 w1 (sseConnections w1)) by reflexivity.
  destruct (forEach_deliver_appends (mkMessage type data) (sseConnections w1) w1)
    as (w' & new & -> & Hp & Hf & Hl).
  exists w', new. split_and!; try done.
  rewrite Hl. subst w1. simpl. by rewrite <- app_assoc.
Qed.

(** X19. When an update that uploads a new image is accepted, the item
    refers to the new image: its storage name is the name the file was
    written under and its locator is [/uploads/<name>]; the new file is on
    disk; and when the item had an image before, the unlink of the old file
    is the first thing the handler logged, before the write, and the old
    file is gone unless the file system refused the unlink. *)
Theorem replaced_asset_is_attached
    (req : Request) (now : Z) (post : Post) (up : Upload) (w : World)
    (st : Z) (p' : Post) (w' : World) :
  JsMap.get (params_id req) (posts w) = Some post →
  file req = Some up →
  put_posts req now w = (Ok (RPost st p'), w') →
  imageFileName p' = Some (storedName up) ∧
  imageUrl p' = Some (String.append "/uploads/" (storedName up)) ∧
  storedName up ∈ files w' ∧
  ∀ old, imageFileName post = Some old → old ≠ "" →
         (∃ rest, log w' = (log w ++ EvUnlink old (can_unlink old w) :: rest)%list ∧
                  EvWriteFile (storedName up) true ∈ rest) ∧
         (old ∉ faulty w → old ≠ storedName up → old ∉ files w').
Proof.
  intros Hget Hfile.
  rewrite (put_posts_found _ _ _ _ Hget), Hfile. unfold try_catch.
  unfold bind at 1. unfold bind at 1.
  destruct (when_truthy (imageFileName post) deleteImage w) as [r w1] eqn:Hdel.
  pose proof (when_truthy_deleteImage_ok (imageFileName post) w) as Hok.
  rewrite Hdel in Hok. simpl in Hok. subst r.
  unfold bind at 1. rewrite saveImage_run.
  destruct (bool_decide (storedName up ∈ faulty w1)); [done|].
  unfold ret at 1.
  set (w2 := emit _ _). set (data := <["imageFileName" := _]> _).
  assert (posts w1 = posts w) as Hp1.
  { pose proof (when_truthy_deleteImage_posts (imageFileName post) w) as H.
    by rewrite Hdel in H. }
  assert (JsMap.get (params_id req) (posts w2) = Some post) as Hget2
    by (subst w2; simpl; by rewrite Hp1).
  unfold put_posts_tail, parse.
  destruct (insertPostSchema_partial data) as [v|] eqn:Hparse; [|done].
  rewrite (bind_ok _ _ w2 w2 v) by reflexivity.
  erewrite bind_ok by (rewrite updatePost_run, Hget2; reflexivity).
  destruct (broadcastUpdate_appends "post_updated" (PPost (merge post v now))
              (set_posts (JsMap.set (params_id req) (merge post v now)) w2))
    as (w3 & new & Hb & Hp & Hf & Hl).
  rewrite (bind_ok _ _ _ _ _ Hb). unfold ret. intros [= <- <- <-].
  destruct (partial_takes_present _ _ Hparse) as (_ & _ & _ & _ & Hurl & Hfname).
  destruct (Hurl (VStr (String.append "/uploads/" (storedName up)))) as (o1 & Ho1 & Hu).
  { subst data. rewrite lookup_insert_ne by done. by rewrite lookup_insert_eq. }
  destruct (Hfname (VStr (storedName up))) as (o2 & Ho2 & Hn).
  { subst data. by rewrite lookup_insert_eq. }
  destruct o1 as [u|]; [|done]. destruct o2 as [n|]; [|done].
  injection Ho1 as <-. injection Ho2 as <-.
  split_and!.
  - simpl. by rewrite Hn.
  - simpl. by rewrite Hu.
  - rewrite Hf. subst w2. simpl. set_solver.
  - intros old Hold Hne. rewrite Hold in Hdel.
    destruct (when_truthy_run (Some old) deleteImage w (truthy_Some _ Hne))
      as (n & [= <-] & _ & Hrun).
    rewrite Hrun, deleteImage_run in Hdel. injection Hdel as <-.
    split.
    + rewrite Hl. subst w2. simpl.
      destruct (can_unlink old w); simpl; rewrite <- !app_assoc; simpl;
        (eexists; split; [reflexivity|set_solver]).
    + intros Hok Hother. rewrite Hf. subst w2. simpl.
      unfold can_unlink. rewrite (bool_decide_eq_false_2 (old ∈ faulty w)) by done.
      rewrite andb_true_r.
      destruct (bool_decide (old ∈ files w)) eqn:Hin; simpl.
      * set_solver.
      * apply bool_decide_eq_false in Hin. set_solver.
Qed.

Lemma replaced_asset_is_attached_witness :
  ∃ p' w',
    put_posts (mkRequest "p1" ∅ (Some (mkUpload "b.png" "170-b.png")))
              400 sample_world = (Ok (RPost 200 p'), w') ∧
    imageFileName p' = Some "170-b.png" ∧
    imageUrl p' = Some (String.append "/uploads/" "170-b.png") ∧
    "170-b.png" ∈ files w' ∧
    "old.png" ∉ files w'.
Proof.
  pose (req := mkRequest "p1" ∅ (Some (mkUpload "b.png" "170-b.png"))).
  assert (put_posts req 400 sample_world =
            (Ok (RPost 200
                   (merge sample_post
                          (mkPartial None None None None
                                     (Some (Some "/uploads/170-b.png"))
                                     (Some (Some "170-b.png")) None) 400)),
             snd (put_posts req 400 sample_world))) as Hrun
    by (vm_compute; reflexivity).
  destruct (replaced_asset_is_attached req 400 sample_post
              (mkUpload "b.png" "170-b.png") sample_world _ _ _
              eq_refl eq_refl Hrun) as (Hn & Hu & Hin & Hold).
  destruct (Hold "old.png" eq_refl ltac:(discriminate)) as [_ Hgone].
  eexists _, _. split; [exact Hrun|].
  split_and!; [exact Hn | exact Hu | exact Hin |].
  apply Hgone; [|discriminate].
  apply (bool_decide_unpack _). vm_compute. exact I.
Defined.

(* ================================================================== *)
(** * More on the broadcast hub *)

Lemma set_add_NoDup (res : nat) (s : list nat) : NoDup s → NoDup (set_add res s).
Proof.
  intros Hs. unfold set_add. case_bool_decide as Hin; [done|].
  apply NoDup_app. split_and!; [done| |apply NoDup_singleton].
  intros x Hx ->%list_elem_of_singleton. done.
Qed.

Lemma set_delete_NoDup (res : nat) (s : list nat) :
  NoDup s → NoDup (set_delete res s).
Proof. intros Hs. by apply NoDup_filter. Qed.

Lemma events_open_run (res : nat) (w : World) :
  events_open res w =
    (if bool_decide (res ∈ dead w) then Throw (WriteError res) else Ok tt,
     emit (EvResWrite res connected (bool_decide (res ∉ dead w)))
          (set_conns (set_add res) w)).
Proof.
  unfold events_open.
  rewrite (bind_ok _ _ w (set_conns (set_add res) w) tt) by reflexivity.
  unfold res_write. simpl.
  destruct (bool_decide (res ∈ dead w)) eqn:Hd.
  - apply bool_decide_eq_true in Hd.
    by rewrite bool_decide_eq_false_2 by (by intros ?).
  - apply bool_decide_eq_false in Hd. by rewrite bool_decide_eq_true_2.
Qed.

Lemma run_hub_op_NoDup (o : HubOp) (w : World) :
  NoDup (sseConnections w) → NoDup (sseConnections (run_hub_op o w)).
Proof.
  intros Hnd. destruct o as [res|res|type data]; simpl.
  - rewrite events_open_run. simpl. by apply set_add_NoDup.
  - by apply set_delete_NoDup.
  - rewrite broadcastUpdate_run by done. simpl. by apply NoDup_filter.
Qed.

(** X20. The set of connections stays a set: starting with no connection,
    after any run of subscriptions, closes and broadcasts no connection is
    in it twice, so that a broadcast writes to each at most once. *)
Theorem hub_members_distinct (ops : list HubOp) (w : World) :
  sseConnections w = [] →
  NoDup (sseConnections (run_hub ops w)).
Proof.
  intros Hempty.
  assert (NoDup (sseConnections w)) as Hnd by (rewrite Hempty; constructor).
  clear Hempty. revert w Hnd.
  induction ops as [|o ops IH]; intros w Hnd; [done|].
  simpl. apply IH. by apply run_hub_op_NoDup.
Qed.

Lemma hub_members_distinct_witness :
  NoDup (sseConnections
           (run_hub [HubOpen 1; HubOpen 2; HubOpen 1;
                     HubPublish "post_deleted" (PId "p1"); HubClose 2;
                     HubOpen 2] empty_world)).
Proof. apply (hub_members_distinct _ empty_world). reflexivity. Defined.

(** What one hub operation appends to the log, for a connection that is not
    a member and is not the one being opened. *)
Lemma run_hub_op_non_member (c : nat) (o : HubOp) (w : World) :
  NoDup (sseConnections w) →
  c ∉ sseConnections w →
  o ≠ HubOpen c →
  c ∉ sseConnections (run_hub_op o w) ∧
  ∃ new, log (run_hub_op o w) = (log w ++ new)%list ∧
         filter (fun e => is_write_to c e = true) new = [].
Proof.
  intros Hnd Hout Hopen. destruct o as [res|res|type data]; simpl.
  - assert (res ≠ c) as Hne by congruence.
    rewrite events_open_run. simpl. split.
    + unfold set_add. case_bool_decide; [done|].
      intros [?| ->%list_elem_of_singleton]%elem_of_app; done.
    + eexists. split; [reflexivity|].
      rewrite filter_cons_False; [done|].
      simpl. by intros ?%Nat.eqb_eq.
  - split.
    + by intros [_ ?]%list_elem_of_filter.
    + exists []. by rewrite app_nil_r.
  - rewrite broadcastUpdate_run by done. simpl. split.
    + by intros [_ ?]%list_elem_of_filter.
    + eexists. split; [reflexivity|].
      rewrite filter_cons_False by done.
      by apply writes_to_absent.
Qed.

(** X21. A connection that is not in the set receives nothing: after it was
    closed (or dropped, or before it subscribes), no run of hub operations
    that does not open it again writes to it, whatever is published. *)
Theorem non_member_gets_nothing (c : nat) (ops : list HubOp) :
  ∀ w : World,
    NoDup (sseConnections w) →
    c ∉ sseConnections w →
    Forall (fun o => o ≠ HubOpen c) ops →
    ∃ new, log (run_hub ops w) = (log w ++ new)%list ∧
           filter (fun e => is_write_to c e = true) new = [].
Proof.
  induction ops as [|o ops IH]; intros w Hnd Hout Hops.
  - exists []. by rewrite app_nil_r.
  - apply Forall_cons in Hops as [Ho Hops]. simpl.
    destruct (run_hub_op_non_member c o w Hnd Hout Ho) as (Hout1 & new1 & Hl1 & Hf1).
    destruct (IH (run_hub_op o w) (run_hub_op_NoDup o w Hnd) Hout1 Hops)
      as (new2 & Hl2 & Hf2).
    exists (new1 ++ new2)%list. split.
    + by rewrite Hl2, Hl1, <- app_assoc.
    + by rewrite filter_app, Hf1, Hf2.
Qed.

Lemma non_member_gets_nothing_witness :
  ∃ new,
    log (run_hub [HubPublish "post_liked" (PPost sample_post); HubOpen 4;
                  HubPublish "post_deleted" (PId "p1")]
                 (snd (events_close 3 sample_world)))
      = (log (snd (events_close 3 sample_world)) ++ new)%list ∧
    filter (fun e => is_write_to 3 e = true) new = [].
Proof.
  apply (non_member_gets_nothing 3).
  - apply (bool_decide_unpack _). vm_compute. exact I.
  - apply (bool_decide_unpack _). vm_compute. exact I.
  - repeat (constructor; [discriminate|]). constructor.
Defined.

(** X22. A connection whose write throws during a broadcast is dropped by
    that broadcast, and is written to exactly once: no later broadcast (or
    other hub operation short of a new subscription of it) writes to it. *)
Theorem failed_connection_is_written_once
    (c : nat) (type : string) (data : Payload) (ops : list HubOp) (w : World) :
  NoDup (sseConnections w) →
  c ∈ sseConnections w →
  c ∈ dead w →
  Forall (fun o => o ≠ HubOpen c) ops →
  ∃ new,
    log (run_hub (HubPublish type data :: ops) w) = (log w ++ new)%list ∧
    filter (fun e => is_write_to c e = true) new
      = [EvResWrite c (mkMessage type data) false] ∧
    c ∉ sseConnections (run_hub (HubPublish type data :: ops) w).
Proof.
  intros Hnd Hin Hdead Hops. simpl.
  set (w1 := snd (broadcastUpdate type data w)).
  assert (NoDup (sseConnections w1)) as Hnd1
    by (apply (run_hub_op_NoDup (HubPublish type data) w Hnd)).
  assert (c ∉ sseConnections w1) as Hout1.
  { subst w1. rewrite broadcastUpdate_run by done. simpl.
    by intros [? _]%list_elem_of_filter. }
  destruct (non_member_gets_nothing c ops w1 Hnd1 Hout1 Hops) as (new2 & Hl2 & Hf2).
  eexists. split_and!.
  - rewrite Hl2. subst w1. rewrite broadcastUpdate_run by done. simpl.
    rewrite <- app_assoc. reflexivity.
  - simpl. rewrite filter_cons_False by done.
    rewrite filter_app, Hf2, app_nil_r.
    clear Hl2 Hf2 Hout1 Hnd1. revert Hnd Hin.
    generalize (sseConnections w) as cs.
    induction cs as [|x cs IH]; intros Hnd Hin; [by inversion Hin|].
    apply NoDup_cons in Hnd as [Hx Hnd]. simpl.
    destruct (decide (x = c)) as [->|Hne].
    + rewrite filter_cons_True by (simpl; apply Nat.eqb_refl).
      rewrite writes_to_absent by done.
      by rewrite bool_decide_eq_false_2 by (by intros ?).
    + rewrite filter_cons_False by (simpl; by intros ?%Nat.eqb_eq).
      apply IH; [done|]. apply elem_of_cons in Hin as [->|Hin]; done.
  - clear Hl2 Hf2. revert Hnd1 Hout1. generalize w1.
    induction ops as [|o ops IH]; intros w0 Hnd0 Hout0; [done|].
    apply Forall_cons in Hops as [Ho Hops]. simpl.
    apply IH; [done|by apply run_hub_op_NoDup|].
    by destruct (run_hub_op_non_member c o w0 Hnd0 Hout0 Ho).
Qed.

Lemma failed_connection_is_written_once_witness :
  ∃ new,
    log (run_hub [HubPublish "post_liked" (PPost sample_post);
                  HubPublish "post_deleted" (PId "p1"); HubOpen 4;
                  HubPublish "post_deleted" (PId "p2")] sample_world)
      = (log sample_world ++ new)%list ∧
    filter (fun e => is_write_to 2 e = true) new
      = [EvResWrite 2 (mkMessage "post_liked" (PPost sample_post)) false] ∧
    2%nat ∉ sseConnections
            (run_hub [HubPublish "post_liked" (PPost sample_post);
                      HubPublish "post_deleted" (PId "p1"); HubOpen 4;
                      HubPublish "post_deleted" (PId "p2")] sample_world).
Proof.
  apply (failed_connection_is_written_once 2 "post_liked" (PPost sample_post)
           [HubPublish "post_deleted" (PId "p1"); HubOpen 4;
            HubPublish "post_deleted" (PId "p2")] sample_world).
  - apply (bool_decide_unpack _). vm_compute. exact I.
  - apply (bool_decide_unpack _). vm_compute. exact I.
  - apply (bool_decide_unpack _). vm_compute. exact I.
  - repeat (constructor; [discriminate|]). constructor.
Defined.

(* ================================================================== *)
(** * More on the like tracker *)

Lemma like_step_keeps_liked (id : string) (c : Client.State) (a : Client.Action) :
  id ∈ Client.likedPosts c →
  id ∉ Client.timers c →
  id ∈ Client.likedPosts (Client.step c a) ∧
  id ∉ Client.timers (Client.step c a) ∧
  ∃ extra, Client.requests (Client.step c a) = (Client.requests c ++ extra)%list ∧
           id ∉ extra.
Proof.
  intros Hliked Htimers.
  assert (∀ l : list string, l = (l ++ [])%list) as Hnil
    by (intros; by rewrite app_nil_r).
  destruct a as [p t| |p|p]; simpl.
  - unfold Client.handleLike.
    case_bool_decide as Hp; simpl.
    { split_and!; try done. exists []. split; [apply Hnil|set_solver]. }
    case_bool_decide as Hm; simpl.
    { split_and!; try done. exists []. split; [apply Hnil|set_solver]. }
    split_and!; try done.
    + intros [?| ->%list_elem_of_singleton]%elem_of_app; done.
    + exists []. split; [apply Hnil|set_solver].
  - unfold Client.timerFires.
    destruct (Client.timers c) as [|p rest] eqn:Ht; simpl.
    { rewrite Ht. split_and!; try done. exists []. split; [apply Hnil|set_solver]. }
    apply not_elem_of_cons in Htimers as [Hne Hrest].
    split_and!; try done.
    exists [p]. split; [done|]. by intros ->%list_elem_of_singleton.
  - split_and!; [set_solver|done|].
    exists []. split; [apply Hnil|set_solver].
  - split_and!; try done. exists []. split; [apply Hnil|set_solver].
Qed.

(** X23. Once an item is in [likedPosts] and no timer for it is pending, no
    run of clicks, timer firings and responses sends another like request
    for it, and it stays in [likedPosts]. *)
Theorem liked_item_is_never_requested_again
    (id : string) (acts : list Client.Action) :
  ∀ c : Client.State,
    id ∈ Client.likedPosts c →
    id ∉ Client.timers c →
    ∃ extra,
      Client.requests (Client.run acts c) = (Client.requests c ++ extra)%list ∧
      id ∉ extra ∧
      id ∈ Client.likedPosts (Client.run acts c).
Proof.
  induction acts as [|a acts IH]; intros c Hliked Htimers.
  - exists []. simpl. rewrite app_nil_r. split_and!; [done|set_solver|done].
  - change (Client.run (a :: acts) c) with (Client.run acts (Client.step c a)).
    destruct (like_step_keeps_liked id c a Hliked Htimers)
      as (Hliked1 & Htimers1 & extra1 & Hr1 & He1).
    destruct (IH _ Hliked1 Htimers1) as (extra2 & Hr2 & He2 & Hliked2).
    exists (extra1 ++ extra2)%list. split_and!; [|set_solver|done].
    by rewrite Hr2, Hr1, <- app_assoc.
Qed.

Lemma liked_item_is_never_requested_again_witness :
  ∃ extra,
    Client.requests
      (Client.run [Client.Click "A" "a"; Client.Click "B" "b"; Client.TimerFires;
                   Client.Click "A" "a"; Client.Succeeds "B"; Client.Click "A" "a";
                   Client.TimerFires]
         (Client.run [Client.Click "A" "a"; Client.TimerFires; Client.Succeeds "A"]
                     Client.init))
    = (Client.requests
         (Client.run [Client.Click "A" "a"; Client.TimerFires; Client.Succeeds "A"]
                     Client.init) ++ extra)%list ∧
    "A" ∉ extra ∧
    "A" ∈ Client.likedPosts
            (Client.run [Client.Click "A" "a"; Client.Click "B" "b"; Client.TimerFires;
                         Client.Click "A" "a"; Client.Succeeds "B"; Client.Click "A" "a";
                         Client.TimerFires]
               (Client.run [Client.Click "A" "a"; Client.TimerFires; Client.Succeeds "A"]
                           Client.init)).
Proof.
  apply (liked_item_is_never_requested_again "A").
  - apply (bool_decide_unpack _). vm_compute. exact I.
  - apply (bool_decide_unpack _). vm_compute. exact I.
Defined.


Lemma single_flight_step (id : string) (c : Client.State) (a : Client.Action) :
  single_flight id c →
  like_action_on id a →
  like_enabled c a →
  single_flight id (Client.step c a).
Proof.
  unfold single_flight. intros Hsf Hon Hen.
  destruct a as [p t| |p|p]; simpl in *; try subst p.
  - unfold Client.handleLike.
    case_bool_decide as Hliked; [done|].
    case_bool_decide as Hmark; [done|]. simpl.
    destruct Hsf as [Hempty|[_ Hm]]; [|done].
    apply app_eq_nil in Hempty as [-> ->]. by right.
  - unfold Client.timerFires.
    destruct (Client.timers c) as [|p rest] eqn:Ht; simpl; [by rewrite Ht|].
    destruct Hsf as [Hempty|[Hone Hm]]; [done|].
    injection Hone as -> Hrest.
    apply app_eq_nil in Hrest as [-> ->]. by right.
  - destruct Hsf as [Hempty|[Hone Hm]].
    + apply app_eq_nil in Hempty as [_ Hin]. rewrite Hin in Hen.
      by apply not_elem_of_nil in Hen.
    + destruct (Client.timers c) as [|q rest].
      * simpl in Hone. rewrite Hone. simpl. rewrite String.eqb_refl. by left.
      * injection Hone as -> Hrest. apply app_eq_nil in Hrest as [_ Hin].
        rewrite Hin in Hen. by apply not_elem_of_nil in Hen.
  - destruct Hsf as [Hempty|[Hone Hm]].
    + apply app_eq_nil in Hempty as [_ Hin]. rewrite Hin in Hen.
      by apply not_elem_of_nil in Hen.
    + destruct (Client.timers c) as [|q rest].
      * simpl in Hone. rewrite Hone. simpl. rewrite String.eqb_refl. by left.
      * injection Hone as -> Hrest. apply app_eq_nil in Hrest as [_ Hin].
        rewrite Hin in Hen. by apply not_elem_of_nil in Hen.
Qed.

(** X24. While the user acts on one item only, the tracker is single-flight:
    from the initial state, in any run of clicks on that item, timer firings
    and answers to its requests in flight, at most one like submission (a
    pending timer or an unanswered request) is outstanding at the end, and
    so after every step. *)
Theorem one_item_one_submission (id : string) (acts : list Client.Action) :
  Forall (like_action_on id) acts →
  like_run_ok Client.init acts →
  (length (Client.timers (Client.run acts Client.init)
           ++ Client.inflight (Client.run acts Client.init)) ≤ 1)%nat.
Proof.
  intros Hon Hok.
  assert (single_flight id (Client.run acts Client.init)) as Hsf.
  { assert (single_flight id Client.init) as Hinit by (by left).
    revert Hon Hok Hinit. generalize Client.init.
    induction acts as [|a acts IH]; intros c Hon Hok Hc; [done|].
    apply Forall_cons in Hon as [Ha Hon]. destruct Hok as [Hen Hok].
    change (Client.run (a :: acts) c) with (Client.run acts (Client.step c a)).
    apply IH; [done|done|]. by apply single_flight_step. }
  destruct Hsf as [->|[-> _]]; simpl; lia.
Qed.

Lemma one_item_one_submission_witness :
  (length
     (Client.timers
        (Client.run [Client.Click "A" "a"; Client.Click "A" "a"; Client.TimerFires;
                     Client.Click "A" "a"; Client.Fails "A"; Client.Click "A" "a";
                     Client.Click "A" "a"] Client.init)
      ++ Client.inflight
           (Client.run [Client.Click "A" "a"; Client.Click "A" "a"; Client.TimerFires;
                        Client.Click "A" "a"; Client.Fails "A"; Client.Click "A" "a";
                        Client.Click "A" "a"] Client.init)) ≤ 1)%nat.
Proof.
  apply (one_item_one_submission "A").
  - repeat (constructor; [simpl; done|]). constructor.
  - simpl. split_and!; try exact I.
    apply (bool_decide_unpack _). vm_compute. exact I.
Defined.

(* ================================================================== *)
(** * The view tracker *)

Lemma clearTimeout_own (handle : nat) (postId : string) :
  Viewer.clearTimeout handle [(handle, postId)] = [].
Proof.
  unfold Viewer.clearTimeout. by rewrite filter_cons_False by (simpl; by intros ?).
Qed.

Lemma one_timer_step (c : Viewer.State) (a : Viewer.Action) :
  manual a → one_timer c → one_timer (Viewer.step c a).
Proof.
  unfold one_timer. intros Hman Hc.
  destruct a as [p t|sv seen p|h|p|p]; simpl in *; try done.
  - unfold Viewer.handleView.
    destruct (_ || _); [done|]. simpl. right.
    exists (Viewer.nextTimer c), p. split; [|done].
    destruct Hc as [->|(h & q & -> & ->)].
    + by destruct (Viewer.viewTimeoutRef c).
    + by rewrite clearTimeout_own.
  - unfold Viewer.timerFires.
    destruct (list_find _ _) as [[i [h' q]]|] eqn:Hfind; [|done]. simpl.
    apply list_find_Some in Hfind as (Hlook & Hh & _). simpl in Hh. subst h'.
    destruct Hc as [Hnil|(h0 & q0 & Hone & Href)].
    + by rewrite Hnil in Hlook.
    + rewrite Hone in Hlook.
      destruct i as [|i]; simpl in Hlook; [|done].
      injection Hlook as -> ->. rewrite Hone, clearTimeout_own. by left.
Qed.

(** X25. The manual view is debounced: from the initial state, in any run of
    clicks, timer firings and responses (the observer aside), at most one
    view timer is pending, since each accepted click clears the timer of
    the click before it. *)
Theorem manual_view_is_debounced (acts : list Viewer.Action) :
  Forall manual acts →
  (length (Viewer.timers (Viewer.run acts Viewer.init)) ≤ 1)%nat.
Proof.
  intros Hman.
  assert (one_timer (Viewer.run acts Viewer.init)) as Hone.
  { assert (one_timer Viewer.init) as Hinit by (by left).
    revert Hman Hinit. generalize Viewer.init.
    induction acts as [|a acts IH]; intros c Hman Hc; [done|].
    apply Forall_cons in Hman as [Ha Hman].
    change (Viewer.run (a :: acts) c) with (Viewer.run acts (Viewer.step c a)).
    apply IH; [done|]. by apply one_timer_step. }
  destruct Hone as [->|(h & q & -> & _)]; simpl; lia.
Qed.

Lemma manual_view_is_debounced_witness :
  (length (Viewer.timers
             (Viewer.run [Viewer.Click "A" "a"; Viewer.Click "B" "b";
                          Viewer.Click "C" "c"] Viewer.init)) ≤ 1)%nat.
Proof.
  apply (manual_view_is_debounced
           [Viewer.Click "A" "a"; Viewer.Click "B" "b"; Viewer.Click "C" "c"]).
  repeat (constructor; [exact I|]). constructor.
Defined.

Lemma view_step_keeps_viewed (id : string) (c : Viewer.State) (a : Viewer.Action) :
  built_after_view id a →
  id ∈ Viewer.viewedPosts c →
  (∀ h, (h, id) ∉ Viewer.timers c) →
  id ∈ Viewer.viewedPosts (Viewer.step c a) ∧
  (∀ h, (h, id) ∉ Viewer.timers (Viewer.step c a)) ∧
  ∃ extra, Viewer.requests (Viewer.step c a) = (Viewer.requests c ++ extra)%list ∧
           id ∉ extra.
Proof.
  intros Hbuilt Hviewed Htimers.
  assert (∀ l : list string, l = (l ++ [])%list) as Hnil
    by (intros; by rewrite app_nil_r).
  assert (∀ h handle, (h, id) ∉ Viewer.clearTimeout handle (Viewer.timers c))
    as Hclear.
  { intros h handle [_ Hin]%list_elem_of_filter. by apply (Htimers h). }
  destruct a as [p t|sv seen p|h|p|p]; simpl in *.
  - unfold Viewer.handleView.
    case_bool_decide as Hp; simpl.
    { split_and!; try done. exists []. split; [apply Hnil|set_solver]. }
    case_bool_decide as Hm; simpl.
    { split_and!; try done. exists []. split; [apply Hnil|set_solver]. }
    split_and!; [done| |exists []; split; [apply Hnil|set_solver]].
    intros h0 [Hin|Hin%list_elem_of_singleton]%elem_of_app.
    + destruct (Viewer.viewTimeoutRef c); [by apply (Hclear h0 n)|].
      by apply (Htimers h0).
    + congruence.
  - unfold Viewer.handleAutoView.
    case_bool_decide as Hp; simpl.
    { split_and!; try done. exists []. split; [apply Hnil|set_solver]. }
    case_bool_decide as Hm; simpl.
    { split_and!; try done. exists []. split; [apply Hnil|set_solver]. }
    split_and!; [done| |exists []; split; [apply Hnil|set_solver]].
    intros h0 [Hin|Hin%list_elem_of_singleton]%elem_of_app.
    + by apply (Htimers h0).
    + congruence.
  - unfold Viewer.timerFires.
    destruct (list_find _ _) as [[i [h' q]]|] eqn:Hfind; simpl.
    + apply list_find_Some in Hfind as (Hlook & _ & _).
      apply list_elem_of_lookup_2 in Hlook.
      split_and!; [done|intros h0; apply Hclear|].
      exists [q]. split; [done|].
      intros ->%list_elem_of_singleton. by apply (Htimers h').
    + split_and!; try done. exists []. split; [apply Hnil|set_solver].
  - split_and!; [set_solver|done|].
    exists []. split; [apply Hnil|set_solver].
  - split_and!; try done. exists []. split; [apply Hnil|set_solver].
Qed.

(** X26. Once an item is in [viewedPosts] and no timer for it is pending, no
    run of clicks, timer firings, responses and observer callbacks built
    since then (whatever marker they captured) sends another view request
    for it. *)
Theorem viewed_item_is_never_requested_again
    (id : string) (acts : list Viewer.Action) :
  ∀ c : Viewer.State,
    Forall (built_after_view id) acts →
    id ∈ Viewer.viewedPosts c →
    (∀ h, (h, id) ∉ Viewer.timers c) →
    ∃ extra,
      Viewer.requests (Viewer.run acts c) = (Viewer.requests c ++ extra)%list ∧
      id ∉ extra ∧
      id ∈ Viewer.viewedPosts (Viewer.run acts c).
Proof.
  induction acts as [|a acts IH]; intros c Hbuilt Hviewed Htimers.
  - exists []. simpl. rewrite app_nil_r. split_and!; [done|set_solver|done].
  - apply Forall_cons in Hbuilt as [Ha Hbuilt].
    change (Viewer.run (a :: acts) c) with (Viewer.run acts (Viewer.step c a)).
    destruct (view_step_keeps_viewed id c a Ha Hviewed Htimers)
      as (Hviewed1 & Htimers1 & extra1 & Hr1 & He1).
    destruct (IH _ Hbuilt Hviewed1 Htimers1) as (extra2 & Hr2 & He2 & Hviewed2).
    exists (extra1 ++ extra2)%list. split_and!; [|set_solver|done].
    by rewrite Hr2, Hr1, <- app_assoc.
Qed.

Lemma viewed_item_is_never_requested_again_witness :
  ∃ extra,
    Viewer.requests
      (Viewer.run [Viewer.Click "A" "a"; Viewer.Seen {["A"]} None "A";
                   Viewer.Seen {["A"]} (Some "B") "C"; Viewer.Click "B" "b";
                   Viewer.TimerFires 2; Viewer.Click "A" "a"]
         (Viewer.run [Viewer.Click "A" "a"; Viewer.TimerFires 1;
                      Viewer.Succeeds "A"] Viewer.init))
    = (Viewer.requests
         (Viewer.run [Viewer.Click "A" "a"; Viewer.TimerFires 1;
                      Viewer.Succeeds "A"] Viewer.init) ++ extra)%list ∧
    "A" ∉ extra ∧
    "A" ∈ Viewer.viewedPosts
            (Viewer.run [Viewer.Click "A" "a"; Viewer.Seen {["A"]} None "A";
                         Viewer.Seen {["A"]} (Some "B") "C"; Viewer.Click "B" "b";
                         Viewer.TimerFires 2; Viewer.Click "A" "a"]
               (Viewer.run [Viewer.Click "A" "a"; Viewer.TimerFires 1;
                            Viewer.Succeeds "A"] Viewer.init)).
Proof.
  apply (viewed_item_is_never_requested_again "A").
  - repeat (constructor; [first [exact I | simpl; set_solver]|]). constructor.
  - apply (bool_decide_unpack _). vm_compute. exact I.
  - intros h. vm_compute. intros H. inversion H.
Defined.

(* ================================================================== *)
(** * Helpers of the pages *)

(** X27. [formatTimeAgo] by cases of the time elapsed: less than an hour
    (a date in the future included) gives 'Less than 1 hour ago'; [n] hours
    are printed for [1 <= n < 24] whole hours; '1 day ago' covers the second
    day; from 48 hours on the number printed is the number of whole days
    elapsed, at least 2. *)
Theorem formatTimeAgo_cases (now date : Z) :
  match formatTimeAgo now date with
  | LessThanHour => now - date < 3600000
  | HoursAgo n => 1 ≤ n < 24 ∧ 3600000 * n ≤ now - date < 3600000 * (n + 1)
  | OneDayAgo => 86400000 ≤ now - date < 172800000
  | DaysAgo n => 2 ≤ n ∧ 86400000 * n ≤ now - date < 86400000 * (n + 1)
  end.
Proof.
  unfold formatTimeAgo.
  change (1000 * 60 * 60) with 3600000.
  pose proof (Z.div_mod (now - date) 3600000 ltac:(lia)) as Hdm.
  pose proof (Z.mod_pos_bound (now - date) 3600000 ltac:(lia)) as Hmod.
  set (h := (now - date) / 3600000) in *.
  destruct (Z.ltb_spec h 1); [lia|].
  destruct (Z.ltb_spec h 24); [lia|].
  destruct (Z.ltb_spec h 48); [lia|].
  pose proof (Z.div_mod h 24 ltac:(lia)) as Hdm2.
  pose proof (Z.mod_pos_bound h 24 ltac:(lia)) as Hmod2.
  set (d := h / 24) in *. lia.
Qed.

Lemma split_spaces_length (s : string) :
  (1 ≤ length (split_spaces s) ≤ S (String.length s))%nat.
Proof.
  induction s as [|c s IH]; simpl; [lia|].
  destruct (Ascii.eqb c Ascii.Space); simpl; [lia|].
  destruct (split_spaces s) as [|piece pieces]; simpl in *; lia.
Qed.

(** X28. [getReadingTime] never prints '0 min read': the number is at least
    1, and it is exactly 1 for a content of fewer than 200 characters. *)
Theorem reading_time_at_least_one (content : string) :
  1 ≤ getReadingTime content ∧
  ((String.length content < 200)%nat → getReadingTime content = 1).
Proof.
  unfold getReadingTime, ceil_div.
  pose proof (split_spaces_length content) as Hlen.
  set (n := Z.of_nat (length (split_spaces content))).
  assert (1 ≤ n) as Hn by lia.
  pose proof (Z.div_mod n 200 ltac:(lia)) as Hdm.
  pose proof (Z.mod_pos_bound n 200 ltac:(lia)) as Hmod.
  split.
  - destruct (Z.eqb_spec (n mod 200) 0); lia.
  - intros Hshort. assert (n ≤ 200) as Hle by lia.
    destruct (Z.eqb_spec (n mod 200) 0); lia.
Qed.

Lemma reading_time_at_least_one_witness : getReadingTime "hello brave world" = 1.
Proof.
  apply (reading_time_at_least_one "hello brave world"). simpl. lia.
Defined.
